(** * RideJournalServer: the ownership-authorized resource service layer

    A shallow embedding of the server's controllers and route tables, and the
    properties of the specification that they decide.

    - [JS]: the fragment of JavaScript values and coercions the code relies on
      ([Number], [parseInt], truthiness, strict equality).
    - [Sequelize]: the Store, as the tables and the model operations the
      controllers call ([findAll], [findOne], [create], [update], [destroy]).
    - [vehicleController]: controllers/vehicleController.js.
    - [eventController]: the Event service, which is not among the sources.
    - [Express], [eventRoutes], [commentRoutes], [imageRoutes]: the routers.
    - [app]: index.js, which mounts the routers. *)

From Stdlib Require Import Ascii.
From stdpp Require Import base option strings gmap list sorting.

#[local] Open Scope Z_scope.
Set Warnings "-register-all".

(** ** JavaScript values *)

Module JS.

(** Numbers are the integers, which a JavaScript number holds exactly up to
    2^53, and [NaN]: ids, counts, page sizes and the sentinels 401 and 404
    are all integral. *)
Inductive num := NaN | Int (n : Z).

Inductive prim :=
| VUndef
| VNull
| VBool (b : bool)
| VNum (n : num)
| VStr (s : string).

#[global] Instance num_eq_dec : EqDecision num.
Proof. solve_decision. Defined.

#[global] Instance prim_eq_dec : EqDecision prim.
Proof. solve_decision. Defined.

(** A request body, a row of a table, the attributes of a model instance:
    objects whose fields are scalars. *)
Abbreviation obj := (gmap string prim).

(** [o.k]: a missing property reads as [undefined]. *)
Definition get (o : obj) (k : string) : prim := default VUndef (o !! k).

(** [if (v)] *)
Definition truthy (v : prim) : bool :=
  match v with
  | VUndef | VNull => false
  | VBool b => b
  | VNum NaN => false
  | VNum (Int n) => negb (n =? 0)
  | VStr s => negb (String.eqb s "")
  end.

(** [a === b] and [a !== b]: same type and same value, [NaN] equal to nothing. *)
Definition strict_eq (a b : prim) : bool :=
  match a, b with
  | VNum NaN, _ | _, VNum NaN => false
  | _, _ => bool_decide (a = b)
  end.

Definition strict_neq (a b : prim) : bool := negb (strict_eq a b).

(** [Number(v)]. The conversion of a string (ECMAScript's StringToNumber) is
    left to the caller of this definition. *)
Definition Number (StringToNumber : string → num) (v : prim) : num :=
  match v with
  | VUndef => NaN
  | VNull => Int 0
  | VBool b => Int (if b then 1 else 0)
  | VNum n => n
  | VStr s => StringToNumber s
  end.

(** *** [parseInt(s, 10)] *)

(** Strings are UTF-8 text. StrWhiteSpaceChar in one byte: TAB, LF, VT, FF,
    CR and space. *)
Definition is_whitespace (c : ascii) : bool :=
  let n := nat_of_ascii c in
  ((9 <=? n) && (n <=? 13))%nat || (n =? 32)%nat.

(** In two bytes: U+00A0. *)
Definition is_whitespace2 (a b : ascii) : bool :=
  ((nat_of_ascii a =? 194) && (nat_of_ascii b =? 160))%nat.

(** In three bytes: U+1680, U+2000 to U+200A, U+2028, U+2029, U+202F,
    U+205F, U+3000 and U+FEFF. *)
Definition is_whitespace3 (a b c : ascii) : bool :=
  let x := nat_of_ascii a in
  let y := nat_of_ascii b in
  let z := nat_of_ascii c in
  (((x =? 225) && (y =? 154) && (z =? 128)) ||
   ((x =? 226) && (y =? 128) &&
    (((128 <=? z) && (z <=? 138)) || (z =? 168) || (z =? 169) || (z =? 175))) ||
   ((x =? 226) && (y =? 129) && (z =? 159)) ||
   ((x =? 227) && (y =? 128) && (z =? 128)) ||
   ((x =? 239) && (y =? 187) && (z =? 191)))%nat.

Definition digit_of (c : ascii) : option Z :=
  let n := nat_of_ascii c in
  if ((48 <=? n) && (n <=? 57))%nat then Some (Z.of_nat n - 48) else None.

Fixpoint skip_whitespace (s : string) : string :=
  match s with
  | String a s1 =>
      if is_whitespace a then skip_whitespace s1
      else
        match s1 with
        | String b s2 =>
            if is_whitespace2 a b then skip_whitespace s2
            else
              match s2 with
              | String c s3 =>
                  if is_whitespace3 a b c then skip_whitespace s3 else s
              | EmptyString => s
              end
        | EmptyString => s
        end
  | EmptyString => s
  end.

(** The sign, and the text after it. *)
Definition split_sign (s : string) : Z * string :=
  match s with
  | String "-" s' => (-1, s')
  | String "+" s' => (1, s')
  | _ => (1, s)
  end.

(** The longest prefix of decimal digits, read from the left with the value
    [acc] of the digits already seen; [None] when no digit was seen. *)
Fixpoint digits (acc : option Z) (s : string) : option Z :=
  match s with
  | String c s' =>
      match digit_of c with
      | Some d => digits (Some (10 * default 0 acc + d)) s'
      | None => acc
      end
  | EmptyString => acc
  end.

Definition parseInt10 (s : string) : num :=
  let '(sign, body) := split_sign (skip_whitespace s) in
  match digits None body with
  | Some n => Int (sign * n)
  | None => NaN
  end.


Definition digits_only (s : string) : bool :=
  forallb (λ c, bool_decide (is_Some (digit_of c))) (String.list_ascii_of_string s).

(** A decimal integer written out: an optional sign, then digits and
    nothing else. *)
Definition numeric (s : string) : bool :=
  let body := (split_sign s).2 in
  negb (String.eqb body "") && digits_only body.


(** [String(v)] of a query parameter: a string, or [undefined] when the
    parameter is missing. *)
Definition ToString (v : option string) : string := default "undefined" v.

Definition parseInt (v : option string) : num := parseInt10 (ToString v).


(** [n || d] on numbers: [NaN] and [0] are falsy. *)
Definition or_default (n : num) (d : Z) : Z :=
  match n with
  | NaN => d
  | Int k => if k =? 0 then d else k
  end.

End JS.

Import JS.

(** ** The Store *)

Module Sequelize.

Inductive model := Vehicle | Event.

(** A table in storage order, and the next value of its auto-increment key. *)
Record table := { rows : list obj; autoinc : Z }.

(** The database: the tables, and the clock the timestamps are read from. *)
Record db := { Vehicles : table; Events : table; clock : Z }.

Definition tbl (m : model) (d : db) : table :=
  match m with
  | Vehicle => Vehicles d
  | Event => Events d
  end.

(** A write replaces one table and lets the clock advance. *)
Definition commit (m : model) (t : table) (d : db) : db :=
  match m with
  | Vehicle => {| Vehicles := t; Events := Events d; clock := clock d + 1 |}
  | Event => {| Vehicles := Vehicles d; Events := t; clock := clock d + 1 |}
  end.

Inductive exn :=
| TypeError        (* a property read on [null] *)
| DatabaseError    (* the Store rejected the statement *)
| UploadError.     (* the Blob Store failed *)

(** How an awaited call ends: it returns, or it rejects. *)
Inductive outcome (A : Type) :=
| Ok (a : A)
| Throw (e : exn).
Arguments Ok {A} a.
Arguments Throw {A} e.

(** An async function over the Store: run from a database, it ends in an
    outcome and leaves a database. *)
Definition async (A : Type) : Type := db → outcome A * db.

#[global] Instance async_ret : MRet async := λ A a d, (Ok a, d).

#[global] Instance async_bind : MBind async := λ A B f m d,
  match m d with
  | (Ok a, d') => f a d'
  | (Throw e, d') => (Throw e, d')
  end.

Definition throw {A} (e : exn) : async A := λ d, (Throw e, d).

(** What the server takes from outside its own sources. *)
Class Collaborators := {
  (** ECMAScript's StringToNumber, behind [Number] of a string *)
  StringToNumber : string → num;
  (** utils/uploadManager: stores an image payload in the Blob Store and
      returns its reference name *)
  saveImage : prim → string → outcome prim;
  (** the constraints the Store enforces on a row of a model (validations of
      the model, foreign keys) *)
  accepts : model → db → obj → bool
}.

(** [where: {k: v, ...}]: every listed column equals its value. *)
Definition matches (cond : list (string * prim)) (o : obj) : bool :=
  forallb (λ kv, bool_decide (o !! kv.1 = Some kv.2)) cond.

(** Column names are matched without regard to case by the Store: an order
    by [CreatedAt] is an order by the [createdAt] timestamp. *)
Definition column (name : string) : string :=
  if String.eqb name "CreatedAt" then "createdAt" else name.

(** The key of [order: [[col, "DESC"]]]. *)
Definition sort_key (col : string) (o : obj) : Z :=
  match o !! column col with
  | Some (VNum (Int t)) => t
  | _ => 0
  end.

Fixpoint insert_desc (key : obj → Z) (x : obj) (l : list obj) : list obj :=
  match l with
  | [] => [x]
  | y :: l' => if key y <=? key x then x :: l else y :: insert_desc key x l'
  end.

Definition order_desc (key : obj → Z) (l : list obj) : list obj :=
  foldr (insert_desc key) [] l.

(** Newest first: no row comes right before one with a larger key. *)
Definition newest_first (key : obj → Z) : list obj → Prop :=
  Sorted (λ a b, key b ≤ key a).

(** The options of [findAll]. *)
Record options := {
  where_ : list (string * prim);
  order : option string;          (* descending by this column *)
  limit : option Z;
  offset : option Z
}.

Definition ordered (o : option string) (l : list obj) : list obj :=
  match o with
  | Some col => order_desc (sort_key col) l
  | None => l
  end.

(** [LIMIT offset, limit]; the Store refuses a negative bound. *)
Definition page (lim off : option Z) (l : list obj) : option (list obj) :=
  let lo := default 0 off in
  if (lo <? 0) || (default 0 lim <? 0) then None
  else
    let l' := drop (Z.to_nat lo) l in
    Some (match lim with Some n => take (Z.to_nat n) l' | None => l' end).

Definition findAll (m : model) (opts : options) : async (list obj) := λ d,
  let found := List.filter (matches (where_ opts)) (rows (tbl m d)) in
  match page (limit opts) (offset opts) (ordered (order opts) found) with
  | Some l => (Ok l, d)
  | None => (Throw DatabaseError, d)
  end.

(** The first row of a table that matches, if any. *)
Definition first_match (m : model) (cond : list (string * prim)) (d : db)
  : option obj :=
  head (List.filter (matches cond) (rows (tbl m d))).

(** [findOne]: the first matching row, or [null]. *)
Definition findOne (m : model) (cond : list (string * prim)) : async (option obj) := λ d,
  (Ok (first_match m cond d), d).

Section Writes.
Context `{Collaborators}.

(** [create]: the row gets the next key and both timestamps, which are
    readings of the clock. The payload is stored as it is given: which of
    its keys are columns of the model, and the conversion of its values to
    the types of the columns, belong to the declaration of the model, which
    is not among the sources for Vehicle, and a payload that names its own
    [id] or timestamps is given the Store's. A property that depends on any
    of these is stated with a hypothesis on the payload or on the rows. *)
Definition create (m : model) (values : obj) : async obj := λ d,
  if accepts m d values then
    let t := tbl m d in
    let now := VNum (Int (clock d)) in
    let row :=
      <["id" := VNum (Int (autoinc t))]>
        (<["createdAt" := now]> (<["updatedAt" := now]> values)) in
    (Ok row, commit m {| rows := rows t ++ [row]; autoinc := autoinc t + 1 |} d)
  else (Throw DatabaseError, d).

(** [update]: a payload that sets nothing issues no statement and counts
    no row. Otherwise the listed fields replace those of every matching row
    and the result is [[affectedCount]], the number of matching rows. As
    for [create] the payload is taken as it is given: which of its keys are
    columns of the model is not part of this model, and the theorems claim
    a positive count, or a field written, only of a payload that sets a
    column. *)
Definition update (m : model) (values : obj) (cond : list (string * prim))
  : async (list Z) := λ d,
  let t := tbl m d in
  let now := VNum (Int (clock d)) in
  let hit := List.filter (matches cond) (rows t) in
  if bool_decide (values = ∅) then (Ok [0], d)
  else if forallb (λ o, accepts m d (values ∪ o)) hit then
    let change o :=
      if matches cond o then <["updatedAt" := now]> (values ∪ o) else o in
    (Ok [Z.of_nat (length hit)],
     commit m {| rows := change <$> rows t; autoinc := autoinc t |} d)
  else (Throw DatabaseError, d).

(** [destroy]: removes the matching rows and returns how many there were. *)
Definition destroy (m : model) (cond : list (string * prim)) : async Z := λ d,
  let t := tbl m d in
  let hit := List.filter (matches cond) (rows t) in
  (Ok (Z.of_nat (length hit)),
   commit m {| rows := List.filter (λ o, negb (matches cond o)) (rows t);
               autoinc := autoinc t |} d).

End Writes.

End Sequelize.

Import Sequelize.

(** What a controller returns: a scalar (a sentinel, a count, [null]), a model
    instance, a list of instances, or the [[affectedCount]] of an update. *)
Inductive jsvalue :=
| Prim (p : prim)
| Instance (o : obj)
| Instances (l : list obj)
| Counts (l : list Z).

(** [o.k] on a value that may be [null]. *)
Definition member (o : option obj) (k : string) : async prim :=
  match o with
  | Some r => mret (get r k)
  | None => throw TypeError
  end.

(** [await] of a collaborator that does not touch the Store. *)
Definition await {A} (r : outcome A) : async A := λ d, (r, d).

(** [where: {id: id}], for the id of a path that the validators admit as an
    integer. *)
Definition by_id (id : Z) : list (string * prim) := [("id", VNum (Int id))].

(** The [userId] recorded on the row of a model with this id, if there is
    such a row. *)
Definition owner_of (m : model) (id : Z) (d : db) : option prim :=
  (λ row, get row "userId") <$> first_match m (by_id id) d.

(** The instances a call returned, if it returned a list of them. *)
Definition listed (r : outcome jsvalue) : option (list obj) :=
  match r with
  | Ok (Instances l) => Some l
  | _ => None
  end.

Definition unauthorized : jsvalue := Prim (VNum (Int 401)).
Definition not_found : jsvalue := Prim (VNum (Int 404)).

(** ** controllers/vehicleController.js *)

Module vehicleController.
Section Controller.
Context `{Collaborators}.

Definition getVehicles (limit offset : Z) : async jsvalue :=
  data ← findAll Vehicle {| where_ := []; order := Some "CreatedAt";
                            limit := Some limit; offset := Some offset |};
  mret (Instances data).

Definition getVehicle (id : Z) : async jsvalue :=
  data ← findOne Vehicle (by_id id);
  mret (from_option Instance (Prim VNull) data).

Definition getVehiclesByUser (id : Z) : async jsvalue :=
  data ← findAll Vehicle {| where_ := [("userId", VNum (Int id))]; order := None;
                            limit := None; offset := None |};
  mret (Instances data).

Definition getVehiclesByType (type : string) : async jsvalue :=
  data ← findAll Vehicle {| where_ := [("type", VStr type)]; order := None;
                            limit := None; offset := None |};
  mret (Instances data).

Definition createVehicle (data : obj) (tokenUserId : prim) : async jsvalue :=
  if strict_neq (VNum (Number StringToNumber (get data "userId"))) tokenUserId
  then mret unauthorized
  else
    let image := get data "image" in
    let vehicleData := delete "image" data in
    vehicleData ←
      (if truthy image
       then ref ← await (saveImage image "vehicle");
            mret (<["image" := ref]> vehicleData)
       else mret (<["image" := VStr "default.png"]> vehicleData));
    vehicle ← create Vehicle vehicleData;
    mret (Instance vehicle).

Definition updateVehicle (id : Z) (data : obj) (tokenUserId : prim) : async jsvalue :=
  vehicleOwnerData ← findOne Vehicle (by_id id);
  owner ← member vehicleOwnerData "userId";
  if strict_neq (VNum (Number StringToNumber owner)) tokenUserId
  then mret unauthorized
  else
    let image := get data "image" in
    let vehicleData := delete "image" data in
    vehicleData ←
      (if truthy image
       then ref ← await (saveImage image "vehicle");
            mret (<["image" := ref]> vehicleData)
       else mret vehicleData);
    vehicle ← update Vehicle vehicleData (by_id id);
    mret (Counts vehicle).

Definition deleteVehicle (id : Z) (tokenUserId : prim) : async jsvalue :=
  vehicleData ← findOne Vehicle (by_id id);
  owner ← member vehicleData "userId";
  if strict_neq (VNum (Number StringToNumber owner)) tokenUserId
  then mret unauthorized
  else
    vehicle ← destroy Vehicle (by_id id);
    mret (Prim (VNum (Int vehicle))).

End Controller.
End vehicleController.

(** ** The Event service *)

Module eventController.
Section Controller.
Context `{Collaborators}.

(** Modelled from the spec: controllers/eventController.js is not among the
    sources. The Ownership Guard of section 4.2: ALLOW iff the resource's
    owner is the caller. *)
Definition authorize (resourceOwnerId callerId : prim) : bool :=
  bool_decide (resourceOwnerId = callerId).

(** Modelled from the spec: controllers/eventController.js is not among the
    sources. [create] of section 4.1: the payload's [userId] must be the
    caller, then the payload is persisted. *)
Definition createEvent (data : obj) (tokenUserId : prim) : async jsvalue :=
  if authorize (get data "userId") tokenUserId
  then event ← create Event data; mret (Instance event)
  else mret unauthorized.

(** Modelled from the spec: controllers/eventController.js is not among the
    sources. [update] of section 4.1: the existing row is loaded first;
    absent, NotFound; else its own owner field is compared with the caller;
    only the fields of the payload change. *)
Definition updateEvent (id : Z) (data : obj) (tokenUserId : prim) : async jsvalue :=
  existing ← findOne Event (by_id id);
  match existing with
  | None => mret not_found
  | Some row =>
      if authorize (get row "userId") tokenUserId
      then event ← update Event data (by_id id); mret (Counts event)
      else mret unauthorized
  end.

(** Modelled from the spec: controllers/eventController.js is not among the
    sources. [delete] of section 4.1: the ownership check of [update], then
    the count of removed rows. *)
Definition deleteEvent (id : Z) (tokenUserId : prim) : async jsvalue :=
  existing ← findOne Event (by_id id);
  match existing with
  | None => mret not_found
  | Some row =>
      if authorize (get row "userId") tokenUserId
      then event ← destroy Event (by_id id); mret (Prim (VNum (Int event)))
      else mret unauthorized
  end.

End Controller.
End eventController.

(** ** Routing *)

Module Express.

(** What travels through a route: scalars, arrays and objects with their
    keys in order. *)
Inductive value :=
| VPrim (p : prim)
| VArr (l : list value)
| VObj (o : list (string * value)).

Definition number (n : Z) : value := VPrim (VNum (Int n)).
Definition text (s : string) : value := VPrim (VStr s).

(** [if (v)]: arrays and objects are truthy. *)
Definition truthy_value (v : value) : bool :=
  match v with
  | VPrim p => truthy p
  | _ => true
  end.

(** [o.k] *)
Fixpoint field (o : list (string * value)) (k : string) : value :=
  match o with
  | [] => VPrim VUndef
  | (k', v) :: o' => if String.eqb k' k then v else field o' k
  end.

(** [delete v.k]: nothing happens on a value that has no such property. *)
Definition delete_property (k : string) (v : value) : value :=
  match v with
  | VObj o => VObj (List.filter (λ kv, negb (String.eqb kv.1 k)) o)
  | _ => v
  end.

(** The number of nodes of a value. *)
Fixpoint size (v : value) : nat :=
  match v with
  | VPrim _ => 1
  | VArr l => S (list_sum (List.map size l))
  | VObj o => S (list_sum (List.map (λ kv, size kv.2) o))
  end.




Inductive method := GET | POST | PUT | DELETE.

#[global] Instance method_eq_dec : EqDecision method.
Proof. solve_decision. Defined.

(** A request, with what the middleware attaches to it. Paths are the
    segments below the mount point of the router. *)
Record request := {
  verb : method;
  path : list string;
  query : gmap string string;
  body : value;
  authorization : option string;   (* the bearer credential, if any *)
  params : gmap string string;      (* set by the matched route *)
  userId : prim;                    (* set by verifyToken *)
  errors : list value               (* collected by the validators *)
}.

Definition with_params (ps : gmap string string) (req : request) : request :=
  {| verb := verb req; path := path req; query := query req; body := body req;
     authorization := authorization req; params := ps; userId := userId req;
     errors := errors req |}.

Definition with_userId (uid : prim) (req : request) : request :=
  {| verb := verb req; path := path req; query := query req; body := body req;
     authorization := authorization req; params := params req; userId := uid;
     errors := errors req |}.

Definition with_errors (errs : list value) (req : request) : request :=
  {| verb := verb req; path := path req; query := query req; body := body req;
     authorization := authorization req; params := params req;
     userId := userId req; errors := errs |}.

(** A request as it reaches a router. *)
Definition incoming (m : method) (p : list string) (q : gmap string string)
    (b : value) (credential : option string) : request :=
  {| verb := m; path := p; query := q; body := b; authorization := credential;
     params := ∅; userId := VUndef; errors := [] |}.

(** [req.params.k] *)
Definition param (req : request) (k : string) : prim :=
  from_option VStr VUndef (params req !! k).

Inductive response :=
| Send (payload : value)                  (* res.send(payload) *)
| SendStatus (code : Z)                   (* res.sendStatus(code) *)
| StatusJson (code : Z) (payload : value) (* res.status(code).json(payload) *)
| Unauthorized.                           (* the refusal of verifyToken *)

(** The calls into the controllers. *)
Inductive call :=
| eventController_getEvents (limit offset : Z)
| eventController_getEvent (id : prim)
| eventController_getEventIncludeAll (id : prim)
| eventController_getEventsByVehicle (id : prim)
| eventController_getEventsByType (type : prim)
| eventController_createEvent (data : value) (tokenUserId : prim)
| eventController_updateEvent (id : prim) (data : value) (tokenUserId : prim)
| eventController_deleteEvent (id : prim) (tokenUserId : prim)
| commentController_getComments
| commentController_getComment (id : prim)
| commentController_getCommentsByEvent (id : prim)
| commentController_getCommentsByUser (id : prim)
| commentController_createComment (data : value) (tokenUserId : prim)
| commentController_updateComment (id : prim) (data : value) (tokenUserId : prim)
| commentController_deleteComment (id : prim) (tokenUserId : prim)
| imageController_getImages
| imageController_getImage (id : prim)
| imageController_getImagesByEvent (id : prim)
| imageController_createImage (data : value)
| imageController_deleteImage (id : prim).

Inductive validator :=
| idParamValidator
| eventValidator
| updateEventValidator
| eventTypeParamValidator
| commentValidator
| updateCommentValidator
| imageValidator.

(** What the routers take from outside their own sources. *)
Class Services := {
  (** the controllers: what a call returns, or that it rejects *)
  controller : call → outcome value;
  (** validators/: the field errors a validator finds in a request *)
  check : validator → request → list value;
  (** the Identity Context: the caller a credential resolves to, if valid *)
  verify : option string → option prim
}.

(** How a middleware or handler leaves a request. *)
Inductive flow :=
| Next (req : request)     (* next() *)
| Fail (e : exn)           (* next(err) *)
| Done (r : response).     (* a response was sent *)

(** A layer of a route: the controller calls it made, and how it ended. *)
Definition layer : Type := request → list call * flow.

Inductive segment := Lit (s : string) | Param (name : string).

Record route := { on : method; pattern : list segment; stack : list layer }.

Fixpoint match_path (pat : list segment) (p : list string)
    (ps : gmap string string) : option (gmap string string) :=
  match pat, p with
  | [], [] => Some ps
  | Lit s :: pat', x :: p' =>
      if String.eqb s x then match_path pat' p' ps else None
  | Param name :: pat', x :: p' => match_path pat' p' (<[name := x]> ps)
  | _, _ => None
  end.

(** The layers of a route run in order while each calls [next()]. *)
Fixpoint run (layers : list layer) (req : request) : list call * flow :=
  match layers with
  | [] => ([], Next req)
  | f :: rest =>
      match f req with
      | (t, Next req') => let '(t', r) := run rest req' in (t ++ t', r)
      | (t, r) => (t, r)
      end
  end.

(** How a router leaves a request. *)
Inductive result :=
| Replied (r : response)
| Failed (e : exn)      (* handed to the error handler *)
| Unhandled.            (* no route ended the request *)

(** Routes are tried in the order they were registered. An error skips all
    the routes that remain. *)
Fixpoint dispatch (routes : list route) (req : request) : list call * result :=
  match routes with
  | [] => ([], Unhandled)
  | r :: rest =>
      if bool_decide (on r = verb req) then
        match match_path (pattern r) (path req) ∅ with
        | Some ps =>
            match run (stack r) (with_params ps req) with
            | (t, Done resp) => (t, Replied resp)
            | (t, Fail e) => (t, Failed e)
            | (t, Next req') =>
                let '(t', x) := dispatch rest req' in (t ++ t', x)
            end
        | None => dispatch rest req
        end
      else dispatch rest req
  end.

(** A layer that ended the request, with a response or an error. *)
Definition ended (x : list call * flow) : Prop :=
  match x.2 with
  | Next _ => False
  | _ => True
  end.

(** The requests of the mutating endpoints: POST on a collection, PUT and
    DELETE on one of its items. *)
Definition mutation (req : request) : Prop :=
  (verb req = POST ∧ path req = []) ∨
  ((verb req = PUT ∨ verb req = DELETE) ∧ ∃ id, path req = [id]).

Section Layers.
Context `{Services}.

(** A validator records what it finds and always calls [next()]. *)
Definition validate (v : validator) : layer := λ req,
  ([], Next (with_errors (errors req ++ check v req) req)).

(** Modelled from the spec: auth/authMiddleware.js is not among the sources.
    A credential that resolves to a caller sets [req.userId]; an absent or
    invalid one ends the request with an unauthorized outcome. *)
Definition verifyToken : layer := λ req,
  match verify (authorization req) with
  | Some uid => ([], Next (with_userId uid req))
  | None => ([], Done Unauthorized)
  end.

(** [{result: 200, data: data}] *)
Definition envelope (data : value) : value :=
  VObj [("result", number 200); ("data", data)].

(** [try { const data = await c; k(data) } catch (err) { next(err) }] *)
Definition invoke (c : call) (k : value → flow) : list call * flow :=
  match controller c with
  | Ok data => ([c], k data)
  | Throw e => ([c], Fail e)
  end.

(** [if (errors.isEmpty()) h else res.status(422).json({errors: errors.array()})] *)
Definition validated (h : layer) : layer := λ req,
  match errors req with
  | [] => h req
  | errs => ([], Done (StatusJson 422 (VObj [("errors", VArr errs)])))
  end.

(** [if (!data) res.sendStatus(404) else res.send({result: 200, data: data})] *)
Definition found (data : value) : flow :=
  if truthy_value data then Done (Send (envelope data)) else Done (SendStatus 404).

(** [switch (data) { case 404: ...; case 401: ...; default: ... }] *)
Definition settled (data : value) : flow :=
  match data with
  | VPrim (VNum (Int 404)) => Done (SendStatus 404)
  | VPrim (VNum (Int 401)) =>
      Done (StatusJson 401 (VObj [("errors", VArr [VObj [("msg", text "Unauthorized")]])]))
  | _ => Done (Send (envelope data))
  end.

End Layers.
End Express.

Import Express.

(** ** routes/eventRoutes.js *)

Module eventRoutes.
Section Router.
Context `{Services}.

(** The page of a list request: [parseInt(req.query.limit, 10) || 10] and
    [parseInt(req.query.offset, 10) || 0]. *)
Definition page_of (q : gmap string string) : Z * Z :=
  (or_default (parseInt (q !! "limit")) 10,
   or_default (parseInt (q !! "offset")) 0).

Definition get_all : layer := λ req,
  let '(limit, offset) := page_of (query req) in
  invoke (eventController_getEvents limit offset)
         (λ data, Done (Send (envelope data))).

Definition get_one : layer := validated (λ req,
  invoke (eventController_getEvent (param req "id")) found).

(** [data.toJSON()]: the plain object of a model instance. Any other value
    has no such method. *)
Definition toJSON (data : value) : option (list (string * value)) :=
  match data with
  | VObj o => Some o
  | _ => None
  end.

(** [filteredData.User = v] on an object that has the key. *)
Definition set_User (f : value → value) (o : list (string * value))
  : list (string * value) :=
  (λ kv, if String.eqb kv.1 "User" then (kv.1, f kv.2) else kv) <$> o.

(** [if (filteredData.User) { delete filteredData.User.password;
    delete filteredData.User.email }] *)
Definition filtered (filteredData : list (string * value)) : list (string * value) :=
  if truthy_value (field filteredData "User")
  then set_User (λ u, delete_property "email" (delete_property "password" u))
                filteredData
  else filteredData.

Definition get_include : layer := validated (λ req,
  invoke (eventController_getEventIncludeAll (param req "id")) (λ data,
    if truthy_value data then
      match toJSON data with
      | Some filteredData => Done (Send (envelope (VObj (filtered filteredData))))
      | None => Fail TypeError
      end
    else Done (SendStatus 404))).

Definition get_by_vehicle : layer := validated (λ req,
  invoke (eventController_getEventsByVehicle (param req "id")) found).

Definition get_by_type : layer := validated (λ req,
  invoke (eventController_getEventsByType (param req "type")) found).

Definition post : layer := validated (λ req,
  invoke (eventController_createEvent (body req) (userId req)) settled).

Definition put : layer := validated (λ req,
  invoke (eventController_updateEvent (param req "id") (body req) (userId req))
         settled).

Definition delete : layer := validated (λ req,
  invoke (eventController_deleteEvent (param req "id") (userId req)) settled).

Definition router : list route := [
  {| on := GET; pattern := []; stack := [get_all] |};
  {| on := GET; pattern := [Param "id"];
     stack := [validate idParamValidator; get_one] |};
  {| on := GET; pattern := [Param "id"; Lit "include"];
     stack := [validate idParamValidator; get_include] |};
  {| on := GET; pattern := [Lit "vehicle"; Param "id"];
     stack := [validate idParamValidator; get_by_vehicle] |};
  {| on := GET; pattern := [Lit "type"; Param "type"];
     stack := [validate eventTypeParamValidator; get_by_type] |};
  {| on := POST; pattern := [];
     stack := [verifyToken; validate eventValidator; post] |};
  {| on := PUT; pattern := [Param "id"];
     stack := [verifyToken; validate updateEventValidator; put] |};
  {| on := DELETE; pattern := [Param "id"];
     stack := [verifyToken; validate idParamValidator; delete] |}
].

End Router.
End eventRoutes.

(** ** routes/commentRoutes.js *)

Module commentRoutes.
Section Router.
Context `{Services}.

Definition get_all : layer := λ req,
  invoke commentController_getComments (λ data, Done (Send (envelope data))).

Definition get_one : layer := validated (λ req,
  invoke (commentController_getComment (param req "id")) found).

Definition get_by_event : layer := validated (λ req,
  invoke (commentController_getCommentsByEvent (param req "id")) found).

Definition get_by_user : layer := validated (λ req,
  invoke (commentController_getCommentsByUser (param req "id")) found).

Definition post : layer := validated (λ req,
  invoke (commentController_createComment (body req) (userId req)) settled).

Definition put : layer := validated (λ req,
  invoke (commentController_updateComment (param req "id") (body req) (userId req))
         settled).

Definition delete : layer := validated (λ req,
  invoke (commentController_deleteComment (param req "id") (userId req)) settled).

Definition router : list route := [
  {| on := GET; pattern := []; stack := [get_all] |};
  {| on := GET; pattern := [Param "id"];
     stack := [validate idParamValidator; get_one] |};
  {| on := GET; pattern := [Lit "event"; Param "id"];
     stack := [validate idParamValidator; get_by_event] |};
  {| on := GET; pattern := [Lit "user"; Param "id"];
     stack := [validate idParamValidator; get_by_user] |};
  {| on := POST; pattern := [];
     stack := [verifyToken; validate commentValidator; post] |};
  {| on := PUT; pattern := [Param "id"];
     stack := [verifyToken; validate updateCommentValidator; put] |};
  {| on := DELETE; pattern := [Param "id"];
     stack := [verifyToken; validate idParamValidator; delete] |}
].

End Router.
End commentRoutes.

(** ** routes/imageRoutes.js *)

Module imageRoutes.
Section Router.
Context `{Services}.

(** [res.send(data)] *)
Definition get_all : layer := λ req,
  invoke imageController_getImages (λ data, Done (Send data)).

Definition get_one : layer := validated (λ req,
  invoke (imageController_getImage (param req "id")) found).

Definition get_by_event : layer := validated (λ req,
  invoke (imageController_getImagesByEvent (param req "id")) found).

Definition post : layer := validated (λ req,
  invoke (imageController_createImage (body req)) found).

Definition delete : layer := validated (λ req,
  invoke (imageController_deleteImage (param req "id")) found).

(** The five routes, in the order they are registered. *)
Definition all_images : route :=
  {| on := GET; pattern := []; stack := [get_all] |}.

Definition image_by_id : route :=
  {| on := GET; pattern := [Param "id"];
     stack := [validate idParamValidator; get_one] |}.

Definition images_by_event : route :=
  {| on := GET; pattern := [Param "id"];
     stack := [validate idParamValidator; get_by_event] |}.

Definition create_image : route :=
  {| on := POST; pattern := []; stack := [validate imageValidator; post] |}.

Definition delete_image : route :=
  {| on := DELETE; pattern := [Param "id"];
     stack := [validate idParamValidator; delete] |}.

Definition router : list route :=
  [all_images; image_by_id; images_by_event; create_image; delete_image].

End Router.
End imageRoutes.

(** ** Keys of a table *)

(** The primary key of a row. *)
Definition key_of (o : obj) : option Z :=
  match o !! "id" with
  | Some (VNum (Int n)) => Some n
  | _ => None
  end.

(** A table as [create] builds one: every row has an integer key below the
    next auto-increment value, and no two rows share a key. *)
Definition well_keyed (t : table) : Prop :=
  Forall (λ o, ∃ n, key_of o = Some n ∧ n < autoinc t) (rows t) ∧
  NoDup (key_of <$> rows t).

(** A column of integers that may be null: what a row holds under it is an
    integer, [null], or nothing. *)
Definition stored_integer (k : string) (o : obj) : bool :=
  match o !! k with
  | Some (VNum (Int _)) | Some VNull | None => true
  | _ => false
  end.

Definition integer_column (k : string) (t : table) : Prop :=
  Forall (λ o, stored_integer k o = true) (rows t).

(** The caller a controller call is made for, when it takes one. *)
Definition caller_of (c : call) : option prim :=
  match c with
  | eventController_createEvent _ u
  | eventController_updateEvent _ _ u
  | eventController_deleteEvent _ u
  | commentController_createComment _ u
  | commentController_updateComment _ _ u
  | commentController_deleteComment _ u => Some u
  | _ => None
  end.

(** ** index.js *)

Module app.

(** What the application mounts from outside these sources: three routers,
    and the interactive documentation when [NODE_ENV] is [development]. *)
Class Mounted := {
  userRoutes : list route;
  vehicleRoutes : list route;
  likeRoutes : list route;
  development : bool;
  apiDocs : list route
}.

(** [app.use(prefix, router)] and [app.get(path, handler)]. *)
Inductive entry :=
| Use (prefix : list string) (router : list route)
| Get (r : route).

(** The path below a prefix. *)
Fixpoint below (prefix p : list string) : option (list string) :=
  match prefix, p with
  | [], _ => Some p
  | s :: prefix', x :: p' => if String.eqb s x then below prefix' p' else None
  | _ :: _, [] => None
  end.

Definition with_path (p : list string) (req : request) : request :=
  {| verb := verb req; path := p; query := query req; body := body req;
     authorization := authorization req; params := params req;
     userId := userId req; errors := errors req |}.

(** The entries are tried in order; a mounted router sees the path below
    its prefix, and what it leaves unhandled goes on to the next entry. *)
Fixpoint serve (entries : list entry) (req : request) : list call * result :=
  match entries with
  | [] => ([], Unhandled)
  | Use prefix router :: rest =>
      match below prefix (path req) with
      | Some p =>
          match dispatch router (with_path p req) with
          | (t, Unhandled) => let '(t', x) := serve rest req in (t ++ t', x)
          | done => done
          end
      | None => serve rest req
      end
  | Get r :: rest =>
      match dispatch [r] req with
      | (t, Unhandled) => let '(t', x) := serve rest req in (t ++ t', x)
      | done => done
      end
  end.

Section App.
Context `{Services} `{Mounted}.

(** [res.send("hello world")] *)
Definition hello : layer := λ req, ([], Done (Send (text "hello world"))).

(** The application, after its logging and body-parsing middleware. *)
Definition entries : list entry :=
  (if development then [Use ["api-docs"] apiDocs] else []) ++
  [ Use ["api"; "users"] userRoutes;
    Use ["api"; "vehicles"] vehicleRoutes;
    Use ["api"; "events"] eventRoutes.router;
    Use ["api"; "comments"] commentRoutes.router;
    Use ["api"; "images"] imageRoutes.router;
    Use ["api"; "likes"] likeRoutes;
    Get {| on := GET; pattern := []; stack := [hello] |} ].

End App.
End app.

(** How a router reads the end of a route's stack. *)
Definition answer (x : list call * flow) : list call * result :=
  match x with
  | (t, Done r) => (t, Replied r)
  | (t, Fail e) => (t, Failed e)
  | (t, Next _) => (t, Unhandled)
  end.

Section Views.
Context `{Collaborators} `{Services}.

(** The request a handler gets from the validator before it. *)
Definition checked (v : validator) (req : request) : request :=
  with_errors (errors req ++ check v req) req.

(** What a router may leave of a request: a refusal or a validation error
    comes before any controller call; every other response, and every error
    handed on, comes after exactly one. *)
Definition orderly (x : list call * result) : Prop :=
  match x.2 with
  | Unhandled | Replied Unauthorized => x.1 = []
  | Replied (StatusJson code _) =>
      (code = 422 ∧ x.1 = []) ∨
      (code = 401 ∧ ∃ c, x.1 = [c] ∧ controller c = Ok (number 401))
  | Replied (SendStatus code) =>
      code = 404 ∧ ∃ c data, x.1 = [c] ∧ controller c = Ok data
  | Replied (Send _) => ∃ c data, x.1 = [c] ∧ controller c = Ok data
  | Failed e =>
      ∃ c, x.1 = [c] ∧
           (controller c = Throw e ∨ (e = TypeError ∧ ∃ data, controller c = Ok data))
  end.

(** The fields a vehicle call writes: the payload without its image, then
    the reference of the image when there is one, else what the call falls
    back on. *)
Definition written (data : obj) (fallback : obj → obj) : outcome obj :=
  if truthy (get data "image")
  then match saveImage (get data "image") "vehicle" with
       | Ok ref => Ok (<["image" := ref]> (delete "image" data))
       | Throw e => Throw e
       end
  else Ok (fallback (delete "image" data)).

End Views.

(** ** States and collaborators of the examples *)

Module Scenario.

(** The decimal literals among the strings [Number] converts: digits only,
    the empty string being 0. *)
Definition decimal_literal (s : string) : num :=
  if digits_only s
  then Int (default 0 (digits None s))
  else NaN.

(** A Store that accepts every row, and a Blob Store that names an image
    after its folder. *)
#[local] Instance world : Collaborators := {|
  StringToNumber := decimal_literal;
  saveImage := λ _ folder, Ok (VStr (folder +:+ ".png"));
  accepts := λ _ _ _, true
|}.

Definition empty : db :=
  {| Vehicles := {| rows := []; autoinc := 1 |};
     Events := {| rows := []; autoinc := 1 |};
     clock := 0 |}.

Definition user (id : Z) : prim := VNum (Int id).

Definition suv (owner : Z) : obj :=
  {[ "userId" := user owner; "type" := VStr "suv" ]}.

(** The Store after a call. *)
Definition after {A} (call : async A) (d : db) : db := (call d).2.

(** User 1 owns one vehicle. *)
Definition garage : db := after (vehicleController.createVehicle (suv 1) (user 1)) empty.

(** User 1 owns six, and twelve, vehicles of type suv. *)
Definition six_suvs : db :=
  Nat.iter 6 (after (vehicleController.createVehicle (suv 1) (user 1))) empty.

Definition twelve_suvs : db :=
  Nat.iter 12 (after (vehicleController.createVehicle (suv 1) (user 1))) empty.

(** An event that user 2 posted on the vehicle of user 1. *)
Definition story : obj :=
  {[ "userId" := user 2; "vehicleId" := user 1; "title" := VStr "Exhaust Upgrade";
     "type" := VStr "story" ]}.

Definition journal : db := after (eventController.createEvent story (user 2)) garage.

(** An event as loaded with its relations: its author, its vehicle and a
    comment on it. *)
Definition account (id : Z) (name : string) : value :=
  VObj [("id", number id); ("name", text name);
        ("email", text (name +:+ "@example.org"));
        ("password", text "$2b$10$N9qo8uLOickgx2ZMRZoMye")].

Definition thread : value :=
  VObj [("id", number 1); ("title", text "Exhaust Upgrade"); ("userId", number 2);
        ("User", account 2 "sam");
        ("Vehicle", VObj [("id", number 1); ("userId", number 1); ("type", text "suv")]);
        ("Comments",
         VArr [VObj [("id", number 5); ("content", text "Sounds great");
                     ("userId", number 3)]])].

(** Controllers that answer, validators that find nothing, and an Identity
    Context that knows one credential. *)
#[local] Instance services : Services := {|
  controller := λ c,
    match c with
    | eventController_getEventIncludeAll _ => Ok thread
    | imageController_getImages => Ok (VArr [VObj [("id", number 1)]])
    | _ => Ok (VObj [("id", number 1)])
    end;
  check := λ _ _, [];
  verify := λ credential,
    match credential with
    | Some "token-of-user-1" => Some (user 1)
    | _ => None
    end
|}.

(** The same Store while the Blob Store is out of reach. *)
Definition offline : Collaborators := {|
  StringToNumber := decimal_literal;
  saveImage := λ _ _, Throw UploadError;
  accepts := λ _ _ _, true
|}.

(** Services whose delete calls find nothing left to remove. *)
Definition emptied : Services := {|
  controller := λ c,
    match c with
    | eventController_deleteEvent _ _ | imageController_deleteImage _ => Ok (number 0)
    | _ => Ok (VObj [("id", number 1)])
    end;
  check := λ _ _, [];
  verify := λ credential,
    match credential with
    | Some "token-of-user-1" => Some (user 1)
    | _ => None
    end
|}.

(** Services whose validators find something wrong with every request. *)
Definition strict : Services := {|
  controller := λ _, Ok (VObj [("id", number 1)]);
  check := λ _ _, [VObj [("msg", text "Invalid value")]];
  verify := λ credential,
    match credential with
    | Some "token-of-user-1" => Some (user 1)
    | _ => None
    end
|}.

(** The application in development, with nothing behind the routers that
    are not among the sources. *)
Definition mounted : app.Mounted := {|
  app.userRoutes := [];
  app.vehicleRoutes := [];
  app.likeRoutes := [];
  app.development := true;
  app.apiDocs := []
|}.

End Scenario.

(** * Properties *)

(** ** Reading integers *)





Lemma digits_snoc (s : string) (acc : option Z) (c : ascii) (n : Z) :
  digits_only s = true → digit_of c = Some n →
  digits acc (s +:+ String c "") = Some (10 * default 0 (digits acc s) + n).
Proof.
  revert acc. induction s as [|a s IH]; intros acc Hs Hc; simpl.
  - by rewrite Hc.
  - unfold digits_only in Hs. simpl in Hs.
    apply andb_true_iff in Hs as [Ha Hs].
    apply bool_decide_eq_true_1 in Ha as [x Hx]. rewrite Hx.
    by apply IH.
Qed.

Lemma digits_only_snoc (s : string) (c : ascii) (n : Z) :
  digits_only s = true → digit_of c = Some n → digits_only (s +:+ String c "") = true.
Proof.
  intros Hs Hc. induction s as [|a s IH]; unfold digits_only in *; simpl in *.
  - by rewrite Hc.
  - apply andb_true_iff in Hs as [Ha Hs]. rewrite Ha. simpl. by apply IH.
Qed.

Lemma digit_char (r : Z) : 0 ≤ r ≤ 9 → ∃ c, digit_of c = Some r.
Proof.
  intros Hr. exists (ascii_of_nat (Z.to_nat (48 + r))).
  assert (r = 0 ∨ r = 1 ∨ r = 2 ∨ r = 3 ∨ r = 4 ∨ r = 5 ∨ r = 6 ∨ r = 7
          ∨ r = 8 ∨ r = 9) as Hcases by lia.
  repeat destruct Hcases as [->|Hcases]; try done. by subst.
Qed.

(** Every positive integer is written by a string of digits. *)
Lemma digits_written (n : Z) :
  0 ≤ n → ∃ c s, is_Some (digit_of c) ∧ digits_only (String c s) = true ∧
                 digits None (String c s) = Some n.
Proof.
  intros Hn. revert n Hn Hn.
  apply (Z_lt_induction (λ n, 0 ≤ n → ∃ c s, is_Some (digit_of c) ∧
     digits_only (String c s) = true ∧ digits None (String c s) = Some n)).
  intros n IH Hn.
  destruct (decide (n < 10)) as [Hsmall|Hbig].
  - destruct (digit_char n) as [c Hc]; [lia|].
    exists c, "". unfold digits_only. simpl. rewrite Hc. simpl. eauto.
  - destruct (IH (n / 10)) as (c & s & Hc & Hs & Hv).
    { split; [apply Z.div_pos; lia | apply Z.div_lt; lia]. }
    { apply Z.div_pos; lia. }
    destruct (digit_char (n mod 10)) as [c' Hc'].
    { pose proof (Z.mod_pos_bound n 10). lia. }
    exists c, (s +:+ String c' ""). split; [done|]. split.
    + by apply (digits_only_snoc (String c s) c' (n mod 10)).
    + change (String c (s +:+ String c' "")) with (String c s +:+ String c' "").
      rewrite (digits_snoc _ _ _ _ Hs Hc'), Hv. simpl.
      f_equal. pose proof (Z.div_mod n 10). lia.
Qed.






(** ** Ordering *)

Section Ordering.
Context (key : obj → Z).

Lemma insert_desc_perm (x : obj) (l : list obj) : insert_desc key x l ≡ₚ x :: l.
Proof.
  induction l as [|y l IH]; simpl; [done|].
  destruct (key y <=? key x); [done|].
  by rewrite IH, Permutation_swap.
Qed.

Lemma order_desc_perm (l : list obj) : order_desc key l ≡ₚ l.
Proof.
  induction l as [|x l IH]; simpl; [done|].
  by rewrite insert_desc_perm, IH.
Qed.

Lemma insert_desc_sorted (x : obj) (l : list obj) :
  newest_first key l → newest_first key (insert_desc key x l).
Proof.
  unfold newest_first.
  induction 1 as [|y l Hl IH Hy]; simpl.
  - by repeat constructor.
  - destruct (key y <=? key x) eqn:Hcmp.
    + apply Z.leb_le in Hcmp. by repeat constructor.
    + apply Z.leb_gt in Hcmp. constructor; [done|].
      destruct Hy as [|z l Hz]; simpl.
      * constructor. lia.
      * destruct (key z <=? key x); constructor; lia.
Qed.

Lemma order_desc_sorted (l : list obj) : newest_first key (order_desc key l).
Proof.
  induction l as [|x l IH]; simpl; [constructor|].
  by apply insert_desc_sorted.
Qed.

End Ordering.

(** ** Running the controllers *)

Ltac run_async :=
  unfold mbind, async_bind, mret, async_ret, findOne, member, await, throw in *.

Lemma strict_neq_of_ne (a b : prim) : a ≠ b → strict_neq a b = true.
Proof.
  intros Hne. unfold strict_neq, strict_eq.
  destruct a as [| |?|[|?]|?], b as [| |?|[|?]|?];
    try reflexivity; by rewrite bool_decide_eq_false_2.
Qed.

Lemma filter_all {A} (f : A → bool) (l : list A) :
  (∀ x, f x = true) → List.filter f l = l.
Proof.
  intros Hf. induction l as [|x l IH]; simpl; [done|]. by rewrite Hf, IH.
Qed.

Lemma filter_sublist {A} (f : A → bool) (l : list A) : sublist (List.filter f l) l.
Proof.
  induction l as [|x l IH]; simpl; [done|].
  destruct (f x); by constructor.
Qed.

Lemma owner_of_Some (m : model) (id : Z) (d : db) (owner : prim) :
  owner_of m id d = Some owner →
  ∃ row, first_match m (by_id id) d = Some row ∧ owner = get row "userId".
Proof.
  unfold owner_of. destruct (first_match m (by_id id) d) as [row|]; [|done].
  intros [= <-]. by exists row.
Qed.

Lemma owner_of_None (m : model) (id : Z) (d : db) :
  owner_of m id d = None ↔ first_match m (by_id id) d = None.
Proof. unfold owner_of. by destruct (first_match m (by_id id) d). Qed.

Section Vehicle_facts.
Context `{Collaborators}.
Import vehicleController.

Lemma createVehicle_denied (data : obj) (caller : prim) (d : db) :
  VNum (Number StringToNumber (get data "userId")) ≠ caller →
  createVehicle data caller d = (Ok unauthorized, d).
Proof.
  intros Hne. unfold createVehicle.
  by rewrite (strict_neq_of_ne _ _ Hne).
Qed.

Lemma updateVehicle_denied (id : Z) (data row : obj) (caller : prim) (d : db) :
  first_match Vehicle (by_id id) d = Some row →
  VNum (Number StringToNumber (get row "userId")) ≠ caller →
  updateVehicle id data caller d = (Ok unauthorized, d).
Proof.
  intros Hrow Hne. unfold updateVehicle. run_async.
  rewrite Hrow. simpl. unfold get in *.
  by rewrite (strict_neq_of_ne _ _ Hne).
Qed.

Lemma deleteVehicle_denied (id : Z) (row : obj) (caller : prim) (d : db) :
  first_match Vehicle (by_id id) d = Some row →
  VNum (Number StringToNumber (get row "userId")) ≠ caller →
  deleteVehicle id caller d = (Ok unauthorized, d).
Proof.
  intros Hrow Hne. unfold deleteVehicle. run_async.
  rewrite Hrow. simpl. unfold get in *.
  by rewrite (strict_neq_of_ne _ _ Hne).
Qed.

Lemma updateVehicle_missing (id : Z) (data : obj) (caller : prim) (d : db) :
  first_match Vehicle (by_id id) d = None →
  updateVehicle id data caller d = (Throw TypeError, d).
Proof.
  intros Hrow. unfold updateVehicle. run_async. by rewrite Hrow.
Qed.

Lemma deleteVehicle_missing (id : Z) (caller : prim) (d : db) :
  first_match Vehicle (by_id id) d = None →
  deleteVehicle id caller d = (Throw TypeError, d).
Proof.
  intros Hrow. unfold deleteVehicle. run_async. by rewrite Hrow.
Qed.

(** C1. A caller who is not the owner is refused and the Store is untouched:
    [createVehicle] when the payload's [userId] is not the caller,
    [updateVehicle] and [deleteVehicle] when the [userId] recorded on the
    stored vehicle is not the caller. Each returns the sentinel 401 and
    leaves the database it was run from. *)
Theorem C1_vehicle_mutation_denied (d : db) (id : Z) (data : obj) (caller : prim) :
  (VNum (Number StringToNumber (get data "userId")) ≠ caller →
   createVehicle data caller d = (Ok unauthorized, d)) ∧
  (∀ owner,
     owner_of Vehicle id d = Some owner →
     VNum (Number StringToNumber owner) ≠ caller →
     updateVehicle id data caller d = (Ok unauthorized, d) ∧
     deleteVehicle id caller d = (Ok unauthorized, d)).
Proof.
  split.
  - apply createVehicle_denied.
  - intros owner Hrow Hne. apply owner_of_Some in Hrow as (row & Hrow & ->).
    split.
    + by apply updateVehicle_denied with row.
    + by apply deleteVehicle_denied with row.
Qed.

(** C2. On an id that matches no vehicle, [updateVehicle] and
    [deleteVehicle] do not return a NotFound outcome: for every caller the
    read of [userId] on the missing row rejects with a TypeError. *)
Theorem C2_missing_vehicle_rejects (d : db) (id : Z) (data : obj) (caller : prim) :
  owner_of Vehicle id d = None →
  updateVehicle id data caller d = (Throw TypeError, d) ∧
  deleteVehicle id caller d = (Throw TypeError, d) ∧
  updateVehicle id data caller d ≠ (Ok not_found, d) ∧
  deleteVehicle id caller d ≠ (Ok not_found, d).
Proof.
  intros Hrow. apply owner_of_None in Hrow.
  rewrite (updateVehicle_missing _ _ _ _ Hrow), (deleteVehicle_missing _ _ _ Hrow).
  repeat split; congruence.
Qed.

Lemma getVehicles_run (limit offset : Z) (d : db) :
  0 ≤ limit → 0 ≤ offset →
  getVehicles limit offset d =
    (Ok (Instances (take (Z.to_nat limit) (drop (Z.to_nat offset)
           (order_desc (sort_key "CreatedAt") (rows (Vehicles d)))))), d).
Proof.
  intros Hl Ho. unfold getVehicles, findAll. run_async. simpl.
  rewrite filter_all by done. unfold page. simpl.
  destruct (offset <? 0) eqn:H1; [apply Z.ltb_lt in H1; lia|].
  destruct (limit <? 0) eqn:H2; [apply Z.ltb_lt in H2; lia|].
  done.
Qed.

(** C7 (amended). The list of vehicles by type takes no limit, no offset and
    no order: it is every stored vehicle of the requested type and nothing
    else, in storage order. *)
Theorem C7_vehicles_by_type (type : string) (d : db) :
  ∃ l, getVehiclesByType type d = (Ok (Instances l), d) ∧
       (∀ o, o ∈ l ↔ o ∈ rows (Vehicles d) ∧ o !! "type" = Some (VStr type)) ∧
       sublist l (rows (Vehicles d)).
Proof.
  exists (List.filter (matches [("type", VStr type)]) (rows (Vehicles d))).
  split; [reflexivity|]. split.
  - intros o. rewrite !list_elem_of_In, filter_In. unfold matches. simpl.
    rewrite andb_true_r, bool_decide_eq_true. done.
  - apply filter_sublist.
Qed.

Lemma strict_neq_same (n : Z) : strict_neq (VNum (Int n)) (VNum (Int n)) = false.
Proof. unfold strict_neq, strict_eq. by rewrite bool_decide_eq_true_2. Qed.

Lemma createVehicle_stores (data : obj) (uid : Z) (image : prim) (d : db) :
  Number StringToNumber (get data "userId") = Int uid →
  accepts Vehicle d (<["image" := image]> (delete "image" data)) = true →
  (truthy (get data "image") = false ∧ image = VStr "default.png" ∨
   truthy (get data "image") = true ∧ saveImage (get data "image") "vehicle" = Ok image) →
  ∃ row d', createVehicle data (VNum (Int uid)) d = (Ok (Instance row), d') ∧
            rows (Vehicles d') = rows (Vehicles d) ++ [row] ∧
            row !! "image" = Some image.
Proof.
  intros Huid Hok Himage. unfold createVehicle.
  rewrite Huid, strict_neq_same. run_async. unfold create.
  destruct Himage as [[-> ->]|[-> ->]]; simpl; rewrite Hok; simpl;
    (eexists _, _; split; [reflexivity|]; split; [done|]);
    do 3 (rewrite lookup_insert_ne by done); apply lookup_insert_eq.
Qed.

(** C8. A vehicle created by its owner without an image (none in the
    payload, or a falsy one) is stored with the image [default.png]; with an
    image, it is stored with the reference the Blob Store returned for it.
    In both cases the row is the one appended to the table. *)
Theorem C8_vehicle_image_reference (data : obj) (uid : Z) (d : db) :
  Number StringToNumber (get data "userId") = Int uid →
  (truthy (get data "image") = false →
   accepts Vehicle d (<["image" := VStr "default.png"]> (delete "image" data)) = true →
   ∃ row d', createVehicle data (VNum (Int uid)) d = (Ok (Instance row), d') ∧
             rows (Vehicles d') = rows (Vehicles d) ++ [row] ∧
             row !! "image" = Some (VStr "default.png")) ∧
  (∀ ref, truthy (get data "image") = true →
          saveImage (get data "image") "vehicle" = Ok ref →
          accepts Vehicle d (<["image" := ref]> (delete "image" data)) = true →
   ∃ row d', createVehicle data (VNum (Int uid)) d = (Ok (Instance row), d') ∧
             rows (Vehicles d') = rows (Vehicles d) ++ [row] ∧
             row !! "image" = Some ref).
Proof.
  intros Huid. split.
  - intros Himage Hok. apply createVehicle_stores; auto.
  - intros ref Himage Hsaved Hok. apply createVehicle_stores; auto.
Qed.

End Vehicle_facts.

Section Vehicle_examples.
#[local] Existing Instance Scenario.world.
Import vehicleController.

(** User 2 is refused on the vehicle of user 1, whatever the request. *)
Lemma C1_vehicle_mutation_denied_witness :
  let stranger := Scenario.user 2 in
  createVehicle (Scenario.suv 1) stranger Scenario.garage
    = (Ok unauthorized, Scenario.garage) ∧
  updateVehicle 1 {[ "type" := VStr "ute" ]} stranger Scenario.garage
    = (Ok unauthorized, Scenario.garage) ∧
  deleteVehicle 1 stranger Scenario.garage
    = (Ok unauthorized, Scenario.garage).
Proof.
  intros stranger.
  destruct (C1_vehicle_mutation_denied Scenario.garage 1 (Scenario.suv 1) stranger)
    as [Hcreate _].
  destruct (C1_vehicle_mutation_denied Scenario.garage 1 {[ "type" := VStr "ute" ]}
              stranger) as [_ Hchange].
  split.
  - apply Hcreate. vm_compute. discriminate.
  - apply (Hchange (Scenario.user 1)).
    + vm_compute. reflexivity.
    + vm_compute. discriminate.
Defined.

(** Vehicle 7 does not exist in the garage of user 1. *)
Lemma C2_missing_vehicle_rejects_witness :
  updateVehicle 7 {[ "type" := VStr "ute" ]} (Scenario.user 1) Scenario.garage
    = (Throw TypeError, Scenario.garage) ∧
  deleteVehicle 7 (Scenario.user 1) Scenario.garage
    = (Throw TypeError, Scenario.garage).
Proof.
  destruct (C2_missing_vehicle_rejects Scenario.garage 7 {[ "type" := VStr "ute" ]}
              (Scenario.user 1)) as (Hu & Hd & _).
  - vm_compute. reflexivity.
  - by split.
Defined.

(** Six vehicles of the type come back, the oldest first. *)
Lemma C7_six_suvs_counterexample :
  length <$> listed (getVehiclesByType "suv" Scenario.six_suvs).1 = Some 6%nat ∧
  fmap (M := list) (sort_key "createdAt")
    <$> listed (getVehiclesByType "suv" Scenario.six_suvs).1
    = Some [0; 1; 2; 3; 4; 5] ∧
  ¬ Sorted (λ older newer : Z, newer ≤ older) [0; 1; 2; 3; 4; 5].
Proof.
  split; [vm_compute; reflexivity|]. split; [vm_compute; reflexivity|].
  intros Hsorted. apply Sorted_inv in Hsorted as [_ Hhd].
  apply HdRel_inv in Hhd. simpl in Hhd. lia.
Qed.

(** User 1 registers a vehicle without an image, then one with an image. *)
Lemma C8_vehicle_image_reference_witness :
  (∃ row d', createVehicle (Scenario.suv 1) (Scenario.user 1) Scenario.empty
               = (Ok (Instance row), d') ∧
             rows (Vehicles d') = [row] ∧
             row !! "image" = Some (VStr "default.png")) ∧
  (∃ row d', createVehicle (<["image" := VStr "iVBORw0KGgo="]> (Scenario.suv 1))
               (Scenario.user 1) Scenario.empty
               = (Ok (Instance row), d') ∧
             rows (Vehicles d') = [row] ∧
             row !! "image" = Some (VStr "vehicle.png")).
Proof.
  split.
  - destruct (C8_vehicle_image_reference (Scenario.suv 1) 1 Scenario.empty)
      as [Hnone _]; [vm_compute; reflexivity|].
    apply Hnone; vm_compute; reflexivity.
  - destruct (C8_vehicle_image_reference
                (<["image" := VStr "iVBORw0KGgo="]> (Scenario.suv 1)) 1 Scenario.empty)
      as [_ Hsome]; [vm_compute; reflexivity|].
    apply (Hsome (VStr "vehicle.png")); vm_compute; reflexivity.
Defined.

End Vehicle_examples.

(** ** The Event service *)

Section Event_facts.
Context `{Collaborators}.
Import eventController.

Lemma authorize_spec (owner caller : prim) : authorize owner caller = true ↔ owner = caller.
Proof. unfold authorize. apply bool_decide_eq_true. Qed.

Lemma updateEvent_decision (id : Z) (data row : obj) (caller : prim) (d : db) :
  first_match Event (by_id id) d = Some row →
  updateEvent id data caller d =
    if authorize (get row "userId") caller
    then match update Event data (by_id id) d with
         | (Ok event, d') => (Ok (Counts event), d')
         | (Throw e, d') => (Throw e, d')
         end
    else (Ok unauthorized, d).
Proof.
  intros Hrow. unfold updateEvent. run_async. rewrite Hrow. simpl.
  by destruct (authorize _ _).
Qed.

Lemma deleteEvent_decision (id : Z) (row : obj) (caller : prim) (d : db) :
  first_match Event (by_id id) d = Some row →
  deleteEvent id caller d =
    if authorize (get row "userId") caller
    then (Ok (Prim (VNum (Int (Z.of_nat (length
              (List.filter (matches (by_id id)) (rows (Events d)))))))),
          commit Event
            {| rows := List.filter (λ o, negb (matches (by_id id) o)) (rows (Events d));
               autoinc := autoinc (Events d) |} d)
    else (Ok unauthorized, d).
Proof.
  intros Hrow. unfold deleteEvent. run_async. rewrite Hrow. simpl.
  by destruct (authorize _ _).
Qed.

Lemma updateEvent_allowed (id : Z) (data row : obj) (caller : prim) (d : db) :
  first_match Event (by_id id) d = Some row →
  get row "userId" = caller →
  (updateEvent id data caller d).1 ≠ Ok unauthorized.
Proof.
  intros Hrow Hown. rewrite (updateEvent_decision _ _ _ _ _ Hrow).
  apply authorize_spec in Hown. rewrite Hown.
  unfold update. destruct (bool_decide _); [done|]. by destruct (forallb _ _).
Qed.

(** C3. An event carries its own [userId], recorded when it is created: the
    row stored by [createEvent] has the caller as its [userId]. Updating and
    deleting an event compare the caller with that stored field: a caller
    who is not the event's [userId] is refused and the Store is untouched,
    the caller who is it is not refused. The Vehicle table plays no part:
    two databases with the same events refuse the same callers. *)
Theorem C3_event_owner_field (d : db) (id : Z) (data : obj) (caller : prim) :
  (get data "userId" = caller → accepts Event d data = true →
   ∃ row d', createEvent data caller d = (Ok (Instance row), d') ∧
             rows (Events d') = rows (Events d) ++ [row] ∧
             get row "userId" = caller) ∧
  (∀ owner, owner_of Event id d = Some owner →
     (owner ≠ caller →
      updateEvent id data caller d = (Ok unauthorized, d) ∧
      deleteEvent id caller d = (Ok unauthorized, d)) ∧
     (owner = caller →
      (updateEvent id data caller d).1 ≠ Ok unauthorized ∧
      rows (Events (deleteEvent id caller d).2)
        = List.filter (λ o, negb (matches (by_id id) o)) (rows (Events d)))) ∧
  (∀ d', Events d' = Events d →
     ((updateEvent id data caller d').1 = Ok unauthorized
        ↔ (updateEvent id data caller d).1 = Ok unauthorized)).
Proof.
  split; [|split].
  - intros Hown Hok. unfold createEvent.
    apply authorize_spec in Hown as Hallow. rewrite Hallow.
    run_async. unfold create. rewrite Hok. simpl.
    eexists _, _. split; [reflexivity|]. split; [done|].
    unfold get in *. by do 3 (rewrite lookup_insert_ne by done).
  - intros owner Hrow. apply owner_of_Some in Hrow as (row & Hrow & ->). split.
    + intros Hne.
      rewrite (updateEvent_decision _ _ _ _ _ Hrow), (deleteEvent_decision _ _ _ _ Hrow).
      assert (authorize (get row "userId") caller = false) as ->; [|done].
      apply not_true_is_false. by rewrite authorize_spec.
    + intros Hown. split; [by apply updateEvent_allowed with row|].
      rewrite (deleteEvent_decision _ _ _ _ Hrow).
      apply authorize_spec in Hown. by rewrite Hown.
  - intros d' Hsame.
    assert (first_match Event (by_id id) d' = first_match Event (by_id id) d) as Hfirst.
    { unfold first_match. simpl. by rewrite Hsame. }
    destruct (first_match Event (by_id id) d) as [row|] eqn:Hrow.
    + rewrite (updateEvent_decision _ _ _ _ _ Hrow), (updateEvent_decision _ _ _ _ _ Hfirst).
      destruct (authorize _ _) eqn:Hallow; [|done].
      unfold update. split; intros Hfalse; exfalso;
        revert Hfalse; (destruct (bool_decide _); [done|]); by destruct (forallb _ _).
    + unfold updateEvent. run_async. rewrite Hrow, Hfirst. done.
Qed.

End Event_facts.

Section Event_examples.
#[local] Existing Instance Scenario.world.
Import eventController.

(** User 2 posts an event on the vehicle of user 1. User 1, who owns the
    vehicle, may neither update nor delete the event; user 2 may. *)
Lemma C3_event_owner_field_witness :
  owner_of Vehicle 1 Scenario.journal = Some (Scenario.user 1) ∧
  (∃ row d', createEvent Scenario.story (Scenario.user 2) Scenario.garage
               = (Ok (Instance row), d') ∧
             get row "userId" = Scenario.user 2) ∧
  updateEvent 1 {[ "title" := VStr "x" ]} (Scenario.user 1) Scenario.journal
    = (Ok unauthorized, Scenario.journal) ∧
  deleteEvent 1 (Scenario.user 1) Scenario.journal
    = (Ok unauthorized, Scenario.journal) ∧
  (updateEvent 1 {[ "title" := VStr "x" ]} (Scenario.user 2) Scenario.journal).1
    ≠ Ok unauthorized.
Proof.
  pose proof (C3_event_owner_field Scenario.garage 1 Scenario.story (Scenario.user 2))
    as (Hcreate & _ & _).
  pose proof (C3_event_owner_field Scenario.journal 1 {[ "title" := VStr "x" ]}
                (Scenario.user 1)) as (_ & Hstranger & _).
  pose proof (C3_event_owner_field Scenario.journal 1 {[ "title" := VStr "x" ]}
                (Scenario.user 2)) as (_ & Hauthor & _).
  assert (owner_of Event 1 Scenario.journal = Some (Scenario.user 2)) as Hown
    by (vm_compute; reflexivity).
  split; [vm_compute; reflexivity|]. split.
  - destruct Hcreate as (row & d' & Hrun & _ & Hrow); [vm_compute; reflexivity..|].
    by exists row, d'.
  - destruct (Hstranger _ Hown) as [Hdenied _].
    destruct (Hauthor _ Hown) as [_ Hallowed].
    destruct Hdenied as [Hu Hd]; [vm_compute; discriminate|].
    destruct (Hallowed eq_refl) as [Hok _]. done.
Defined.

End Event_examples.

(** ** Routers *)

Section Router_facts.
Context `{Services}.

Lemma found_ended (t : list call) (data : value) : ended (t, found data).
Proof. unfold ended, found. simpl. by destruct (truthy_value data). Qed.

Lemma settled_ended (t : list call) (data : value) : ended (t, settled data).
Proof.
  unfold ended, settled. simpl.
  destruct data as [[| | |[|n]|]| |]; try done.
  destruct n as [|p|p]; try done.
  repeat (destruct p as [p|p|]; try done).
Qed.

Lemma invoke_ended (c : call) (k : value → flow) :
  (∀ data, ended ([c], k data)) → ended (invoke c k).
Proof.
  intros Hk. unfold invoke. destruct (controller c); [apply Hk|done].
Qed.

Lemma validated_ended (h : layer) (req : request) :
  (∀ req', ended (h req')) → ended (validated h req).
Proof.
  intros Hh. unfold validated. destruct (errors req); [apply Hh|done].
Qed.

Lemma run_validate (v : validator) (h : layer) (req : request) :
  ended (h (with_errors (errors req ++ check v req) req)) →
  run [validate v; h] req = h (with_errors (errors req ++ check v req) req).
Proof.
  unfold ended. simpl.
  destruct (h _) as [t [req'| |]]; simpl; [done| |]; done.
Qed.

(** A route whose stack always ends the request hides every later route
    with its method and pattern. *)
Lemma dispatch_shadowed (r r' : route) (rest : list route) (req : request) :
  on r' = on r → pattern r' = pattern r →
  (∀ req', ended (run (stack r) req')) →
  dispatch (r :: r' :: rest) req = dispatch (r :: rest) req.
Proof.
  intros Hon Hpat Hend. simpl. rewrite Hon, Hpat.
  destruct (bool_decide (on r = verb req)); [|done].
  destruct (match_path (pattern r) (path req) ∅) as [ps|]; [|done].
  specialize (Hend (with_params ps req)). unfold ended in Hend.
  by destruct (run (stack r) (with_params ps req)) as [t [req'| |]].
Qed.

Lemma dispatch_cons_ext (r : route) (l1 l2 : list route) :
  (∀ req, dispatch l1 req = dispatch l2 req) →
  ∀ req, dispatch (r :: l1) req = dispatch (r :: l2) req.
Proof.
  intros Hext req. simpl.
  destruct (bool_decide (on r = verb req)); [|apply Hext].
  destruct (match_path (pattern r) (path req) ∅) as [ps|]; [|apply Hext].
  destruct (run (stack r) (with_params ps req)) as [t [req'| |]]; [|done..].
  by rewrite Hext.
Qed.

Lemma dispatch_other_verb (r : route) (rest : list route) (req : request) :
  on r ≠ verb req → dispatch (r :: rest) req = dispatch rest req.
Proof. intros Hne. simpl. by rewrite bool_decide_eq_false_2. Qed.

Lemma dispatch_other_path (r : route) (rest : list route) (req : request) :
  match_path (pattern r) (path req) ∅ = None →
  dispatch (r :: rest) req = dispatch rest req.
Proof. intros Hnone. simpl. rewrite Hnone. by destruct (bool_decide _). Qed.

Lemma dispatch_here (r : route) (rest : list route) (req : request)
    (ps : gmap string string) :
  on r = verb req →
  match_path (pattern r) (path req) ∅ = Some ps →
  ended (run (stack r) (with_params ps req)) →
  dispatch (r :: rest) req =
    match run (stack r) (with_params ps req) with
    | (t, Done resp) => (t, Replied resp)
    | (t, Fail e) => (t, Failed e)
    | (t, Next _) => (t, Unhandled)
    end.
Proof.
  intros Hverb Hpath Hend. simpl.
  rewrite bool_decide_eq_true_2, Hpath by done.
  unfold ended in Hend. by destruct (run _ _) as [t [req'| |]].
Qed.

Lemma run_verifyToken_refused (rest : list layer) (req : request) :
  verify (authorization req) = None →
  run (verifyToken :: rest) req = ([], Done Unauthorized).
Proof. intros Hnone. simpl. unfold verifyToken. by rewrite Hnone. Qed.

Ltac other_route :=
  first [ rewrite dispatch_other_verb by (simpl; done)
        | rewrite dispatch_other_path by (simpl; done) ].

Lemma image_by_id_ended (req : request) :
  ended (run (stack imageRoutes.image_by_id) req).
Proof.
  unfold imageRoutes.image_by_id. cbn [stack].
  assert (∀ req', ended (imageRoutes.get_one req')) as Hend.
  { intros req'. apply validated_ended. intros req''.
    apply invoke_ended. intros data. apply found_ended. }
  rewrite run_validate; apply Hend.
Qed.

Lemma images_by_event_dead (req : request) :
  dispatch imageRoutes.router req =
  dispatch [imageRoutes.all_images; imageRoutes.image_by_id;
            imageRoutes.create_image; imageRoutes.delete_image] req.
Proof.
  unfold imageRoutes.router. revert req. apply dispatch_cons_ext. intros req.
  apply dispatch_shadowed; [done..|]. apply image_by_id_ended.
Qed.

Ltac handler_cases :=
  unfold validate, validated, invoke, found, settled, verifyToken; simpl;
  repeat (case_match; simpl in *; simplify_eq; try done).

Lemma images_trace (req : request) (c : call) :
  c ∈ (dispatch [imageRoutes.all_images; imageRoutes.image_by_id;
                 imageRoutes.create_image; imageRoutes.delete_image] req).1 →
  c = imageController_getImages ∨ (∃ id, c = imageController_getImage id) ∨
  (∃ data, c = imageController_createImage data) ∨
  (∃ id, c = imageController_deleteImage id).
Proof.
  destruct req as [v p q b a ps u es].
  destruct v, p as [|x [|y p]]; simpl;
    unfold imageRoutes.get_all, imageRoutes.get_one, imageRoutes.post,
           imageRoutes.delete; handler_cases;
    rewrite ?elem_of_nil, ?list_elem_of_singleton; try done;
    intros ->; eauto.
Qed.

(** C10. The second route registered on [GET /:id] of the image router is
    dead: the router answers every request as the router without that route
    does, and no request makes it call [getImagesByEvent]. A [GET] of one
    segment is answered by the first [/:id] route, the lookup of one image,
    which always ends the request. *)
Theorem C10_images_by_event_unreachable (req : request) :
  dispatch imageRoutes.router req =
    dispatch [imageRoutes.all_images; imageRoutes.image_by_id;
              imageRoutes.create_image; imageRoutes.delete_image] req ∧
  (∀ id, imageController_getImagesByEvent id ∉ (dispatch imageRoutes.router req).1) ∧
  (∀ id, verb req = GET → path req = [id] →
     dispatch imageRoutes.router req = dispatch [imageRoutes.image_by_id] req ∧
     (dispatch imageRoutes.router req).2 ≠ Unhandled).
Proof.
  split; [apply images_by_event_dead|]. split.
  - intros id Hin. rewrite images_by_event_dead in Hin.
    apply images_trace in Hin as [?|[[? ?]|[[? ?]|[? ?]]]]; done.
  - intros id Hverb Hpath. rewrite images_by_event_dead.
    destruct req as [v p q b a ps u es]. simpl in Hverb, Hpath. subst v p.
    pose proof (image_by_id_ended
      (with_params (<["id" := id]> ∅)
         {| verb := GET; path := [id]; query := q; body := b;
            authorization := a; params := ps; userId := u; errors := es |}))
      as Hend.
    unfold ended in Hend. simpl in *.
    destruct (imageRoutes.get_one _) as [t [req'| |]]; simpl in *; done.
Qed.

Lemma envelope_differs (data : value) : envelope data ≠ data.
Proof.
  intros Heq. apply (f_equal size) in Heq. simpl in Heq. lia.
Qed.

(** C9. The list of images is sent as the bare payload of the controller,
    not as [{result: 200, data}]; the list of comments, next to it, is sent
    in the envelope. A payload is never its own envelope. *)
Theorem C9_image_list_bare_payload (q : gmap string string) (b : value)
    (credential : option string) :
  dispatch imageRoutes.router (incoming GET [] q b credential) =
    ([imageController_getImages],
     match controller imageController_getImages with
     | Ok data => Replied (Send data)
     | Throw e => Failed e
     end) ∧
  dispatch commentRoutes.router (incoming GET [] q b credential) =
    ([commentController_getComments],
     match controller commentController_getComments with
     | Ok data => Replied (Send (envelope data))
     | Throw e => Failed e
     end) ∧
  (∀ data, Send data ≠ Send (envelope data)).
Proof.
  split; [|split].
  - simpl. unfold imageRoutes.get_all, invoke. by destruct (controller _).
  - simpl. unfold commentRoutes.get_all, invoke. by destruct (controller _).
  - intros data [= Heq]. by apply (envelope_differs data).
Qed.

Lemma mutation_cases (req : request) :
  mutation req →
  (verb req = POST ∧ path req = []) ∨
  (∃ id, verb req = PUT ∧ path req = [id]) ∨
  (∃ id, verb req = DELETE ∧ path req = [id]).
Proof.
  intros [?|[[?|?] [id ?]]]; [by left|right; left|right; right]; by exists id.
Qed.

(** C5. On the event and comment routers a mutating request whose
    credential does not verify is answered with the unauthorized outcome and
    no controller is called. The image router does not do so: it registers
    no credential check, and a create or delete request that passes
    validation reaches the controller, whatever its credential. *)
Theorem C5_credential_guard (req : request) :
  (verify (authorization req) = None → mutation req →
   dispatch eventRoutes.router req = ([], Replied Unauthorized) ∧
   dispatch commentRoutes.router req = ([], Replied Unauthorized)) ∧
  (errors req = [] → verb req = POST → path req = [] →
   check imageValidator (with_params ∅ req) = [] →
   (dispatch imageRoutes.router req).1 = [imageController_createImage (body req)]) ∧
  (∀ id, errors req = [] → verb req = DELETE → path req = [id] →
   check idParamValidator (with_params {[ "id" := id ]} req) = [] →
   (dispatch imageRoutes.router req).1 = [imageController_deleteImage (VStr id)]).
Proof.
  destruct req as [v p q b a ps u es]. split; [|split].
  - intros Hnone Hmut.
    unfold eventRoutes.router, commentRoutes.router.
    apply mutation_cases in Hmut as [[Hv Hp]|[(id & Hv & Hp)|(id & Hv & Hp)]];
      cbn [verb path] in Hv, Hp; subst v p; split; repeat other_route;
      (erewrite dispatch_here; [|done|reflexivity|]);
      cbn [stack]; rewrite run_verifyToken_refused by done; done.
  - cbn [errors verb path body]. intros -> -> -> Hok.
    unfold imageRoutes.router. repeat other_route.
    erewrite dispatch_here; [|done|reflexivity|];
      cbn [stack imageRoutes.create_image]; rewrite run_validate;
      cbn [errors with_params app]; rewrite Hok;
      unfold imageRoutes.post, validated, invoke; cbn [errors with_errors body];
      destruct (controller _); try done; unfold found, ended;
      by destruct (truthy_value _).
  - cbn [errors verb path body]. intros id -> -> -> Hok.
    unfold imageRoutes.router. repeat other_route.
    erewrite dispatch_here; [|done|reflexivity|];
      cbn [stack imageRoutes.delete_image pattern path match_path];
      rewrite insert_empty, run_validate;
      cbn [errors with_params app]; rewrite Hok;
      unfold imageRoutes.delete, validated, invoke, param;
      cbn [errors with_errors with_params params]; rewrite lookup_singleton_eq;
      cbn [from_option];
      destruct (controller _); try done; unfold found, ended;
      by destruct (truthy_value _).
Qed.









End Router_facts.

(** ** The page of a list *)

Section Page_facts.
Context `{Collaborators} `{Services}.
Import vehicleController.



End Page_facts.

Section Page_examples.
#[local] Existing Instance Scenario.world.
#[local] Existing Instance Scenario.services.
Import vehicleController.



End Page_examples.

Section Router_examples.
#[local] Existing Instance Scenario.services.


(** Nobody's credential verifies, and the image is created and deleted. *)
Lemma image_mutation_without_credential :
  let create := incoming POST [] ∅ (VObj [("eventId", number 3)]) None in
  let remove := incoming DELETE ["1"] ∅ (VPrim VUndef) None in
  verify (authorization create) = None ∧
  dispatch imageRoutes.router create
    = ([imageController_createImage (VObj [("eventId", number 3)])],
       Replied (Send (envelope (VObj [("id", number 1)])))) ∧
  dispatch imageRoutes.router remove
    = ([imageController_deleteImage (VStr "1")],
       Replied (Send (envelope (VObj [("id", number 1)])))).
Proof.
  split; [reflexivity|]. split; vm_compute; reflexivity.
Qed.

(** Without a credential, events and comments are out of reach, images are
    not. *)
Lemma C5_credential_guard_witness :
  let create := incoming POST [] ∅ (VObj [("eventId", number 3)]) None in
  let remove := incoming DELETE ["1"] ∅ (VPrim VUndef) None in
  (dispatch eventRoutes.router create = ([], Replied Unauthorized) ∧
   dispatch commentRoutes.router create = ([], Replied Unauthorized)) ∧
  (dispatch eventRoutes.router remove = ([], Replied Unauthorized) ∧
   dispatch commentRoutes.router remove = ([], Replied Unauthorized)) ∧
  (dispatch imageRoutes.router create).1
    = [imageController_createImage (VObj [("eventId", number 3)])] ∧
  (dispatch imageRoutes.router remove).1 = [imageController_deleteImage (VStr "1")].
Proof.
  intros create remove.
  destruct (C5_credential_guard create) as (Hguard & Hcreate & _).
  destruct (C5_credential_guard remove) as (Hguard' & _ & Hremove).
  split; [|split; [|split]].
  - apply Hguard; [reflexivity|]. left. by split.
  - apply Hguard'; [reflexivity|]. right. split; [by right|]. by exists "1".
  - apply Hcreate; reflexivity.
  - apply (Hremove "1"); reflexivity.
Defined.

(** [GET /7] on the image router. *)
Lemma C10_images_by_event_unreachable_witness :
  let req := incoming GET ["7"] ∅ (VPrim VUndef) None in
  dispatch imageRoutes.router req = dispatch [imageRoutes.image_by_id] req ∧
  (dispatch imageRoutes.router req).1 = [imageController_getImage (VStr "7")] ∧
  (dispatch imageRoutes.router req).2 ≠ Unhandled.
Proof.
  intros req.
  destruct (C10_images_by_event_unreachable req) as (_ & _ & Hfirst).
  destruct (Hfirst "7") as [Heq Hhandled]; [reflexivity..|].
  split; [exact Heq|]. split; [vm_compute; reflexivity|exact Hhandled].
Defined.

End Router_examples.

(** * More of the controllers and routers *)

(** ** The Store *)

Lemma tbl_commit (m : model) (t : table) (d : db) : tbl m (commit m t d) = t.
Proof. by destruct m. Qed.

Lemma tbl_commit_other (m m' : model) (t : table) (d : db) :
  m' ≠ m → tbl m' (commit m t d) = tbl m' d.
Proof. by destruct m, m'. Qed.

Lemma matches_by_id (id : Z) (o : obj) :
  matches (by_id id) o = true ↔ key_of o = Some id.
Proof.
  unfold matches, by_id, key_of. simpl. rewrite andb_true_r, bool_decide_eq_true.
  destruct (o !! "id") as [[| | |[|n]|]|]; split; intros; by simplify_eq.
Qed.


Lemma first_match_None (m : model) (id : Z) (d : db) :
  first_match m (by_id id) d = None ↔
  ∀ o, o ∈ rows (tbl m d) → key_of o ≠ Some id.
Proof.
  unfold first_match. rewrite head_None. split.
  - intros Hnil o Hin Hkey. apply matches_by_id in Hkey.
    assert (In o (List.filter (matches (by_id id)) (rows (tbl m d)))) as Hfil
      by (apply filter_In; split; [by apply list_elem_of_In|done]).
    by rewrite Hnil in Hfil.
  - intros Hnone. destruct (List.filter _ _) as [|o l] eqn:Hfil; [done|].
    assert (In o (List.filter (matches (by_id id)) (rows (tbl m d)))) as Hin
      by (rewrite Hfil; by left).
    apply filter_In in Hin as [Hin Hid]. apply matches_by_id in Hid.
    by destruct (Hnone o (proj2 (list_elem_of_In _ _) Hin)).
Qed.

(** In a well keyed table at most one row matches an id. *)
Lemma filter_by_id_unique (id : Z) (l : list obj) :
  NoDup (key_of <$> l) → (length (List.filter (matches (by_id id)) l) ≤ 1)%nat.
Proof.
  induction l as [|o l IH]; [simpl; lia|].
  rewrite fmap_cons. cbn [List.filter].
  intros Hnodup. apply NoDup_cons in Hnodup as [Hfresh Hnodup].
  destruct (matches (by_id id) o) eqn:Hid; [|by apply IH].
  apply matches_by_id in Hid. cbn [length].
  assert (List.filter (matches (by_id id)) l = []) as ->; [|simpl; lia].
  destruct (List.filter _ l) as [|o' l'] eqn:Hfil; [done|].
  assert (In o' (List.filter (matches (by_id id)) l)) as Hin by (rewrite Hfil; by left).
  apply filter_In in Hin as [Hin Hid']. apply matches_by_id in Hid'.
  destruct Hfresh. rewrite Hid, <- Hid'. apply list_elem_of_fmap_2.
  by apply list_elem_of_In.
Qed.

Lemma filter_by_id_count (m : model) (id : Z) (d : db) (row : obj) :
  NoDup (key_of <$> rows (tbl m d)) →
  first_match m (by_id id) d = Some row →
  length (List.filter (matches (by_id id)) (rows (tbl m d))) = 1%nat.
Proof.
  intros Hnodup Hrow. pose proof (filter_by_id_unique id _ Hnodup) as Hle.
  unfold first_match in Hrow.
  destruct (List.filter _ _) as [|o l]; [done|]. simpl in *. lia.
Qed.

Section Store_facts.
Context `{Collaborators}.

Lemma update_done (m : model) (values : obj) (cond : list (string * prim))
    (d d' : db) (n : list Z) :
  values ≠ ∅ →
  update m values cond d = (Ok n, d') →
  n = [Z.of_nat (length (List.filter (matches cond) (rows (tbl m d))))] ∧
  d' = commit m
         {| rows := (λ o, if matches cond o
                          then <["updatedAt" := VNum (Int (clock d))]> (values ∪ o)
                          else o) <$> rows (tbl m d);
            autoinc := autoinc (tbl m d) |} d.
Proof.
  intros Hsets. unfold update. rewrite bool_decide_eq_false_2 by done.
  destruct (forallb _ _); [|done]. by intros [= <- <-].
Qed.

Lemma update_nothing (m : model) (cond : list (string * prim)) (d : db) :
  update m ∅ cond d = (Ok [0], d).
Proof. done. Qed.

Lemma update_accepted (m : model) (values : obj) (cond : list (string * prim)) (d : db) :
  (∀ o, o ∈ rows (tbl m d) → matches cond o = true → accepts m d (values ∪ o) = true) →
  ∃ n d', update m values cond d = (Ok n, d').
Proof.
  intros Hok. unfold update. destruct (bool_decide _); [by eauto|].
  assert (forallb (λ o, accepts m d (values ∪ o))
            (List.filter (matches cond) (rows (tbl m d))) = true) as ->; [|eauto].
  apply forallb_forall. intros o Hin. apply filter_In in Hin as [Hin Hid].
  apply Hok; [by apply list_elem_of_In|done].
Qed.

End Store_facts.

(** ** controllers/vehicleController.js *)

Section Vehicle_more.
Context `{Collaborators}.
Import vehicleController.

Lemma createVehicle_run (data : obj) (caller : prim) (d : db) :
  createVehicle data caller d =
    if strict_neq (VNum (Number StringToNumber (get data "userId"))) caller
    then (Ok unauthorized, d)
    else match written data (insert "image" (VStr "default.png")) with
         | Ok values =>
             match create Vehicle values d with
             | (Ok row, d') => (Ok (Instance row), d')
             | (Throw e, d') => (Throw e, d')
             end
         | Throw e => (Throw e, d)
         end.
Proof.
  unfold createVehicle, written. run_async.
  destruct (strict_neq _ caller); [done|].
  destruct (truthy (get data "image")); [|done].
  by destruct (saveImage (get data "image") "vehicle").
Qed.

Lemma updateVehicle_run (id : Z) (data : obj) (caller : prim) (d : db) :
  updateVehicle id data caller d =
    match first_match Vehicle (by_id id) d with
    | None => (Throw TypeError, d)
    | Some row =>
        if strict_neq (VNum (Number StringToNumber (get row "userId"))) caller
        then (Ok unauthorized, d)
        else match written data (λ values, values) with
             | Ok values =>
                 match update Vehicle values (by_id id) d with
                 | (Ok n, d') => (Ok (Counts n), d')
                 | (Throw e, d') => (Throw e, d')
                 end
             | Throw e => (Throw e, d)
             end
    end.
Proof.
  unfold updateVehicle, written. run_async.
  destruct (first_match Vehicle (by_id id) d) as [row|]; [|done]. simpl.
  destruct (strict_neq _ caller); [done|].
  destruct (truthy (get data "image")); [|done].
  by destruct (saveImage (get data "image") "vehicle").
Qed.

Lemma deleteVehicle_run (id : Z) (caller : prim) (d : db) :
  deleteVehicle id caller d =
    match first_match Vehicle (by_id id) d with
    | None => (Throw TypeError, d)
    | Some row =>
        if strict_neq (VNum (Number StringToNumber (get row "userId"))) caller
        then (Ok unauthorized, d)
        else (Ok (Prim (VNum (Int (Z.of_nat (length
                (List.filter (matches (by_id id)) (rows (Vehicles d)))))))),
              commit Vehicle
                {| rows := List.filter (λ o, negb (matches (by_id id) o))
                             (rows (Vehicles d));
                   autoinc := autoinc (Vehicles d) |} d)
    end.
Proof.
  unfold deleteVehicle. run_async.
  destruct (first_match Vehicle (by_id id) d) as [row|]; [|done]. simpl.
  by destruct (strict_neq _ caller).
Qed.


Lemma written_other (data values : obj) (fallback : obj → obj) (k : string) :
  written data fallback = Ok values → k ≠ "image" →
  (∀ o, fallback o !! k = o !! k) →
  values !! k = data !! k.
Proof.
  unfold written. intros Hw Hk Hfallback. destruct (truthy _).
  - destruct (saveImage _ _); [|done]. injection Hw as <-.
    by rewrite lookup_insert_ne, lookup_delete_ne.
  - injection Hw as <-. by rewrite Hfallback, lookup_delete_ne.
Qed.

(** What an update leaves of a row it hits. *)
Lemma updated_row (values o : obj) (now : prim) (k : string) :
  k ≠ "updatedAt" →
  (<["updatedAt" := now]> (values ∪ o)) !! k
    = match values !! k with Some v => Some v | None => o !! k end.
Proof.
  intros Hk. rewrite lookup_insert_ne by done.
  destruct (values !! k) as [v|] eqn:Hv.
  - by apply lookup_union_Some_l.
  - by apply lookup_union_r.
Qed.

Lemma updated_key (values o : obj) (now : prim) :
  values !! "id" = None → key_of (<["updatedAt" := now]> (values ∪ o)) = key_of o.
Proof.
  intros Hid. unfold key_of. rewrite updated_row by done. by rewrite Hid.
Qed.



(** The update of the owner in this model of the Store, by the fields it
    writes. *)
Lemma updateVehicle_owner_run (id uid : Z) (data values : obj) (owner : prim) (d : db) :
  owner_of Vehicle id d = Some owner →
  Number StringToNumber owner = Int uid →
  written data (λ values, values) = Ok values →
  values ≠ ∅ →
  (∀ o, o ∈ rows (Vehicles d) → key_of o = Some id →
        accepts Vehicle d (values ∪ o) = true) →
  ∃ n d',
    updateVehicle id data (VNum (Int uid)) d = (Ok (Counts [n]), d') ∧
    0 < n ∧ (NoDup (key_of <$> rows (Vehicles d)) → n = 1) ∧
    Events d' = Events d ∧
    length (rows (Vehicles d')) = length (rows (Vehicles d)) ∧
    ∀ i o, rows (Vehicles d) !! i = Some o →
      ∃ o', rows (Vehicles d') !! i = Some o' ∧
            (key_of o ≠ Some id → o' = o) ∧
            (key_of o = Some id →
             ∀ k, k ≠ "updatedAt" →
                  o' !! k = match values !! k with Some v => Some v | None => o !! k end).
Proof.
  intros Hown Huid Hvalues Hsets Hok.
  apply owner_of_Some in Hown as (row & Hrow & ->).
  destruct (update_accepted Vehicle values (by_id id) d) as (n & d' & Hrun).
  { intros o Hin Hid. apply Hok; [done|by apply matches_by_id]. }
  pose proof Hrun as Hdone. apply update_done in Hdone as [-> ->]; [|done].
  eexists _, _. split.
  { rewrite updateVehicle_run, Hrow, Huid, strict_neq_same.
    rewrite Hvalues, Hrun. reflexivity. }
  assert (length (List.filter (matches (by_id id)) (rows (Vehicles d))) ≠ 0%nat) as Hsome.
  { unfold first_match in Hrow. simpl in Hrow. by destruct (List.filter _ _). }
  split; [simpl in *; lia|]. split.
  { intros Hnodup. by rewrite (filter_by_id_count Vehicle id d row Hnodup Hrow). }
  split; [done|]. cbn [commit Vehicles rows tbl]. split; [by rewrite length_fmap|].
  intros i o Hi. rewrite list_lookup_fmap, Hi. eexists. split; [reflexivity|].
  destruct (matches (by_id id) o) eqn:Hid.
  - apply matches_by_id in Hid. split; [done|]. intros _ k Hk.
    by rewrite updated_row.
  - split; [done|]. intros Hkey. apply matches_by_id in Hkey. congruence.
Qed.

(** X4. An update by the recorded owner of vehicle [id] that the Store
    accepts returns one count, leaves the Event table as it was, and leaves
    the Vehicle table with as many rows, every row of another key as it was.
    Without an image to store (none in the payload, or a falsy one) every
    row keeps its image, the count is at most 1 when the keys are distinct,
    and a payload with nothing else in it counts 0 and changes nothing.
    With an image, the rows of the key get the reference
    [saveImage] returned, and the count is positive (1 when the keys are
    distinct). *)
Theorem updateVehicle_by_owner (id uid : Z) (data : obj) (owner : prim) (d : db) :
  owner_of Vehicle id d = Some owner →
  Number StringToNumber owner = Int uid →
  (truthy (get data "image") = false →
   (∀ o, o ∈ rows (Vehicles d) → key_of o = Some id →
         accepts Vehicle d (delete "image" data ∪ o) = true) →
   ∃ n d',
     updateVehicle id data (VNum (Int uid)) d = (Ok (Counts [n]), d') ∧
     0 ≤ n ∧ (NoDup (key_of <$> rows (Vehicles d)) → n ≤ 1) ∧
     (delete "image" data = ∅ → n = 0 ∧ d' = d) ∧
     Events d' = Events d ∧
     length (rows (Vehicles d')) = length (rows (Vehicles d)) ∧
     ∀ i o, rows (Vehicles d) !! i = Some o →
       ∃ o', rows (Vehicles d') !! i = Some o' ∧
             (key_of o ≠ Some id → o' = o) ∧
             o' !! "image" = o !! "image") ∧
  (∀ ref, truthy (get data "image") = true →
          saveImage (get data "image") "vehicle" = Ok ref →
   (∀ o, o ∈ rows (Vehicles d) → key_of o = Some id →
         accepts Vehicle d (<["image" := ref]> (delete "image" data) ∪ o) = true) →
   ∃ n d',
     updateVehicle id data (VNum (Int uid)) d = (Ok (Counts [n]), d') ∧
     0 < n ∧ (NoDup (key_of <$> rows (Vehicles d)) → n = 1) ∧
     Events d' = Events d ∧
     length (rows (Vehicles d')) = length (rows (Vehicles d)) ∧
     ∀ i o, rows (Vehicles d) !! i = Some o →
       ∃ o', rows (Vehicles d') !! i = Some o' ∧
             (key_of o ≠ Some id → o' = o) ∧
             (key_of o = Some id → o' !! "image" = Some ref)).
Proof.
  intros Hown Huid. split.
  - intros Himage Hok.
    assert (written data (λ values, values) = Ok (delete "image" data)) as Hvalues
      by (unfold written; by rewrite Himage).
    destruct (decide (delete "image" data = ∅)) as [Hnothing|Hsets].
    { exists 0, d. split.
      - apply owner_of_Some in Hown as (row & Hrow & ->).
        rewrite updateVehicle_run, Hrow, Huid, strict_neq_same, Hvalues, Hnothing.
        by rewrite update_nothing.
      - split; [done|]. split; [lia|]. do 3 (split; [done|]). eauto. }
    destruct (updateVehicle_owner_run id uid data (delete "image" data) owner d)
      as (n & d' & Hrun & Hpos & Hone & Hevents & Hlength & Hrows); [done..|].
    exists n, d'. split; [done|]. split; [lia|].
    split; [intros Hnodup; rewrite Hone by done; lia|].
    split; [done|]. split; [done|]. split; [done|].
    intros i o Hi. destruct (Hrows i o Hi) as (o' & Hi' & Hother & Hhit).
    exists o'. split; [done|]. split; [done|].
    destruct (decide (key_of o = Some id)) as [Hkey|Hkey]; [|by rewrite Hother].
    rewrite (Hhit Hkey "image") by done. by rewrite lookup_delete_eq.
  - intros ref Himage Hsaved Hok.
    destruct (updateVehicle_owner_run id uid data
                (<["image" := ref]> (delete "image" data)) owner d)
      as (n & d' & Hrun & Hpos & Hone & Hevents & Hlength & Hrows); [done..| | |done|].
    { unfold written. by rewrite Himage, Hsaved. }
    { apply insert_non_empty. }
    exists n, d'. do 5 (split; [done|]).
    intros i o Hi. destruct (Hrows i o Hi) as (o' & Hi' & Hother & Hhit).
    exists o'. split; [done|]. split; [done|].
    intros Hkey. rewrite (Hhit Hkey "image") by done. by rewrite lookup_insert_eq.
Qed.


Lemma filter_negb_elem (id : Z) (l : list obj) (o : obj) :
  o ∈ List.filter (λ o, negb (matches (by_id id) o)) l ↔ o ∈ l ∧ key_of o ≠ Some id.
Proof.
  rewrite !list_elem_of_In, filter_In, negb_true_iff, <- matches_by_id.
  destruct (matches (by_id id) o); intuition congruence.
Qed.

(** X6. When the caller is the recorded owner of vehicle [id],
    [deleteVehicle] returns the positive number of rows of that key (1 when
    the keys are distinct) and leaves the Event table as it was; the Vehicle
    table is left with the rows of the other keys, in their order.  After it
    [getVehicle id] returns [null], and an update or a delete of [id] rejects
    with a TypeError for every caller. *)
Theorem deleteVehicle_by_owner (id uid : Z) (owner : prim) (d : db) :
  owner_of Vehicle id d = Some owner →
  Number StringToNumber owner = Int uid →
  ∃ n d',
    deleteVehicle id (VNum (Int uid)) d = (Ok (Prim (VNum (Int n))), d') ∧
    0 < n ∧ (NoDup (key_of <$> rows (Vehicles d)) → n = 1) ∧
    Events d' = Events d ∧
    (∀ o, o ∈ rows (Vehicles d') ↔ o ∈ rows (Vehicles d) ∧ key_of o ≠ Some id) ∧
    sublist (rows (Vehicles d')) (rows (Vehicles d)) ∧
    getVehicle id d' = (Ok (Prim VNull), d') ∧
    ∀ data caller,
      updateVehicle id data caller d' = (Throw TypeError, d') ∧
      deleteVehicle id caller d' = (Throw TypeError, d').
Proof.
  intros Hown Huid. apply owner_of_Some in Hown as (row & Hrow & ->).
  eexists _, _. split.
  { rewrite deleteVehicle_run, Hrow, Huid, strict_neq_same. reflexivity. }
  assert (length (List.filter (matches (by_id id)) (rows (Vehicles d))) ≠ 0%nat) as Hsome.
  { unfold first_match in Hrow. simpl in Hrow. by destruct (List.filter _ _). }
  split; [lia|]. split.
  { intros Hnodup. pose proof (filter_by_id_count Vehicle id d row Hnodup Hrow) as Hone.
    cbn [tbl] in Hone. by rewrite Hone. }
  match goal with |- context [commit Vehicle ?t d] => set (d' := commit Vehicle t d) end.
  assert (rows (Vehicles d')
          = List.filter (λ o, negb (matches (by_id id) o)) (rows (Vehicles d))) as Hrows
    by done.
  split; [done|]. rewrite Hrows.
  split; [apply filter_negb_elem|]. split; [apply filter_sublist|].
  assert (first_match Vehicle (by_id id) d' = None) as Hgone.
  { apply first_match_None. intros o Hin. cbn [tbl] in Hin. rewrite Hrows in Hin.
    by apply filter_negb_elem in Hin as [_ ?]. }
  split.
  - unfold getVehicle. run_async. by rewrite Hgone.
  - intros data caller. split.
    + by apply updateVehicle_missing.
    + by apply deleteVehicle_missing.
Qed.

Lemma createVehicle_done (data : obj) (caller : prim) (d d' : db) (row : obj) :
  createVehicle data caller d = (Ok (Instance row), d') →
  ∃ values,
    written data (insert "image" (VStr "default.png")) = Ok values ∧
    accepts Vehicle d values = true ∧
    row = <["id" := VNum (Int (autoinc (Vehicles d)))]>
            (<["createdAt" := VNum (Int (clock d))]>
               (<["updatedAt" := VNum (Int (clock d))]> values)) ∧
    d' = commit Vehicle {| rows := rows (Vehicles d) ++ [row];
                           autoinc := autoinc (Vehicles d) + 1 |} d.
Proof.
  rewrite createVehicle_run. destruct (strict_neq _ caller); [done|].
  destruct (written data _) as [values|e]; [|done].
  unfold create. destruct (accepts Vehicle d values) eqn:Hok; [|done].
  cbn [tbl]. intros [= <- <-]. by exists values.
Qed.

Lemma created_key (values : obj) (n : Z) (c u : prim) :
  key_of (<["id" := VNum (Int n)]> (<["createdAt" := c]> (<["updatedAt" := u]> values)))
    = Some n.
Proof. unfold key_of. by rewrite lookup_insert_eq. Qed.

Lemma well_keyed_snoc (t : table) (row : obj) :
  well_keyed t → key_of row = Some (autoinc t) →
  well_keyed {| rows := rows t ++ [row]; autoinc := autoinc t + 1 |}.
Proof.
  intros [Hkeys Hnodup] Hrow. split; cbn [rows autoinc].
  - apply Forall_app. split.
    + eapply Forall_impl; [exact Hkeys|]. intros o (n & Hn & Hlt). exists n. split; [done|lia].
    + apply Forall_singleton. exists (autoinc t). split; [done|lia].
  - rewrite fmap_app. apply NoDup_app. split; [done|]. split; [|apply NoDup_singleton].
    intros k Hk Hin. apply list_elem_of_singleton in Hin as ->.
    apply list_elem_of_fmap in Hk as (o & Ho & Hin).
    rewrite Forall_forall in Hkeys. destruct (Hkeys o Hin) as (n & Hn & Hlt).
    rewrite Hrow in Ho. rewrite Hn in Ho. injection Ho as <-. lia.
Qed.

(** X2. In a well keyed table, a vehicle created from a payload without
    an [id] gets the next auto-increment value as its key. No vehicle had
    that key before the call; after it [getVehicle] finds under that key a
    vehicle with that key and the image of the created one. Every vehicle
    [getVehicle] returned before the call is returned after it, and the
    Event table is left as it was. *)
Theorem createVehicle_then_getVehicle (data : obj) (caller : prim) (d d' : db)
    (row : obj) :
  well_keyed (Vehicles d) →
  data !! "id" = None →
  createVehicle data caller d = (Ok (Instance row), d') →
  let key := autoinc (Vehicles d) in
  key_of row = Some key ∧
  getVehicle key d = (Ok (Prim VNull), d) ∧
  (∃ found, getVehicle key d' = (Ok (Instance found), d') ∧
            key_of found = Some key ∧
            found !! "image" = row !! "image") ∧
  (∀ id old, getVehicle id d = (Ok (Instance old), d) →
             getVehicle id d' = (Ok (Instance old), d')) ∧
  Events d' = Events d.
Proof.
  intros [Hkeys Hnodup] _ Hrun key.
  apply createVehicle_done in Hrun as (values & Hvalues & Hok & Hrow & ->).
  assert (key_of row = Some key) as Hkey
    by (rewrite Hrow; apply created_key).
  assert (∀ id, first_match Vehicle (by_id id)
                  (commit Vehicle {| rows := rows (Vehicles d) ++ [row];
                                     autoinc := autoinc (Vehicles d) + 1 |} d)
                = match first_match Vehicle (by_id id) d with
                  | Some old => Some old
                  | None => if matches (by_id id) row then Some row else None
                  end) as Hfirst.
  { intros id. unfold first_match. cbn [tbl commit Vehicles rows].
    rewrite List.filter_app. cbn [List.filter].
    destruct (List.filter (matches (by_id id)) (rows (Vehicles d))); [|done].
    by destruct (matches (by_id id) row). }
  assert (first_match Vehicle (by_id key) d = None) as Hfresh.
  { apply first_match_None. intros o Hin Ho. rewrite Forall_forall in Hkeys.
    destruct (Hkeys o Hin) as (n & Hn & Hlt). rewrite Hn in Ho. injection Ho as ->.
    unfold key in Hlt. lia. }
  split; [done|]. split; [|split; [|split]].
  - unfold getVehicle. run_async. by rewrite Hfresh.
  - exists row. split; [|done].
    unfold getVehicle. run_async. rewrite Hfirst, Hfresh.
    by rewrite (proj2 (matches_by_id _ _) Hkey).
  - intros id old. unfold getVehicle. run_async. rewrite Hfirst.
    destruct (first_match Vehicle (by_id id) d); [|done].
    simpl. by intros [= ->].
  - done.
Qed.

(** X8. The three mutating calls keep the Vehicle table well keyed
    (integer keys below the next auto-increment value, no key twice),
    whatever they return: [createVehicle] and [updateVehicle] for a payload
    without an [id], [deleteVehicle] always. *)
Theorem vehicle_calls_keep_keys (d : db) :
  well_keyed (Vehicles d) →
  (∀ data caller, data !! "id" = None →
                  well_keyed (Vehicles (createVehicle data caller d).2)) ∧
  (∀ id data caller, data !! "id" = None →
                     well_keyed (Vehicles (updateVehicle id data caller d).2)) ∧
  (∀ id caller, well_keyed (Vehicles (deleteVehicle id caller d).2)).
Proof.
  intros Hwell. split; [|split].
  - intros data caller _. rewrite createVehicle_run.
    destruct (strict_neq _ caller); [done|].
    destruct (written data _) as [values|e]; [|done].
    unfold create. destruct (accepts Vehicle d values); [|done].
    cbn [tbl snd commit Vehicles]. apply well_keyed_snoc; [done|apply created_key].
  - intros id data caller Hid. rewrite updateVehicle_run.
    destruct (first_match Vehicle (by_id id) d) as [row|]; [|done].
    destruct (strict_neq _ caller); [done|].
    destruct (written data _) as [values|e] eqn:Hvalues; [|done].
    assert (values !! "id" = None) as Hvi
      by (by rewrite (written_other _ _ _ "id" Hvalues)).
    unfold update. destruct (bool_decide _); [done|]. destruct (forallb _ _); [|done].
    cbn [tbl snd commit Vehicles]. destruct Hwell as [Hkeys Hnodup].
    set (change := λ o : obj, if matches (by_id id) o then _ else o).
    assert (∀ o, key_of (change o) = key_of o) as Hsame.
    { intros o. unfold change. destruct (matches (by_id id) o); [|done].
      by apply updated_key. }
    split; cbn [rows autoinc].
    + apply Forall_fmap. eapply Forall_impl; [exact Hkeys|].
      intros o Ho. simpl. by rewrite Hsame.
    + rewrite <- list_fmap_compose.
      erewrite list_fmap_ext; [exact Hnodup|]. intros i o _. apply Hsame.
  - intros id caller. rewrite deleteVehicle_run.
    destruct (first_match Vehicle (by_id id) d) as [row|]; [|done].
    destruct (strict_neq _ caller); [done|].
    cbn [tbl snd commit Vehicles]. destruct Hwell as [Hkeys Hnodup].
    pose proof (filter_sublist (λ o, negb (matches (by_id id) o)) (rows (Vehicles d)))
      as Hsub.
    split; cbn [rows autoinc].
    + rewrite Forall_forall in *. intros o Hin. apply Hkeys.
      by apply elem_of_sublist with (1 := Hin).
    + eapply sublist_NoDup; [exact Hnodup|]. by apply fmap_sublist.
Qed.

(** X3. On a Vehicle table whose [userId] column holds integers,
    [getVehiclesByUser] returns the rows whose [userId] is the one asked
    for: all of them, nothing else, in the order of the table, and it leaves
    the Store as it is. *)
Theorem getVehiclesByUser_all (id : Z) (d : db) :
  integer_column "userId" (Vehicles d) →
  ∃ l, getVehiclesByUser id d = (Ok (Instances l), d) ∧
       (∀ o, o ∈ l ↔ o ∈ rows (Vehicles d) ∧ o !! "userId" = Some (VNum (Int id))) ∧
       sublist l (rows (Vehicles d)).
Proof.
  intros _.
  exists (List.filter (matches [("userId", VNum (Int id))]) (rows (Vehicles d))).
  split; [reflexivity|]. split.
  - intros o. rewrite !list_elem_of_In, filter_In. unfold matches. simpl.
    rewrite andb_true_r, bool_decide_eq_true. done.
  - apply filter_sublist.
Qed.

(** X7. When the payload has an image and [saveImage] rejects,
    [createVehicle] and [updateVehicle] leave the Store as it was, for every
    caller; for the caller they would have authorized, the call rejects with
    the error of [saveImage]. *)
Theorem failed_upload_writes_nothing (id : Z) (data : obj) (caller : prim) (d : db)
    (e : exn) :
  truthy (get data "image") = true →
  saveImage (get data "image") "vehicle" = Throw e →
  (createVehicle data caller d).2 = d ∧
  (updateVehicle id data caller d).2 = d ∧
  (strict_neq (VNum (Number StringToNumber (get data "userId"))) caller = false →
   createVehicle data caller d = (Throw e, d)) ∧
  (∀ owner, owner_of Vehicle id d = Some owner →
            strict_neq (VNum (Number StringToNumber owner)) caller = false →
            updateVehicle id data caller d = (Throw e, d)).
Proof.
  intros Himage Hsave.
  assert (∀ fallback, written data fallback = Throw e) as Hw
    by (intros fallback; unfold written; by rewrite Himage, Hsave).
  rewrite createVehicle_run, updateVehicle_run, !Hw. repeat split.
  - by destruct (strict_neq _ caller).
  - destruct (first_match Vehicle (by_id id) d); [|done]. by destruct (strict_neq _ caller).
  - by intros ->.
  - intros owner Hown Hauth. apply owner_of_Some in Hown as (row & -> & ->).
    by rewrite Hauth.
Qed.

Lemma Sorted_drop {A} (R : A → A → Prop) (n : nat) (l : list A) :
  Sorted R l → Sorted R (drop n l).
Proof.
  revert l. induction n as [|n IH]; intros l Hl; [done|].
  destruct l as [|x l]; [done|]. simpl. apply IH. by apply Sorted_inv in Hl as [? _].
Qed.

Lemma Sorted_take {A} (R : A → A → Prop) (n : nat) (l : list A) :
  Sorted R l → Sorted R (take n l).
Proof.
  revert l. induction n as [|n IH]; intros l Hl; [constructor|].
  destruct l as [|x l]; [done|]. simpl.
  apply Sorted_inv in Hl as [Hl Hx]. constructor; [by apply IH|].
  destruct Hx as [|y l Hy]; [destruct n; constructor|].
  destruct n; constructor. done.
Qed.

(** X1. For a positive [limit] and a non-negative [offset],
    [getVehicles] returns at most [limit] rows of the Vehicle table, newest
    first, and leaves the Store as it is; an offset at or beyond the size of
    the table gives the empty list, and offset 0 with a limit of at least
    that size gives all its rows.  When no two rows share a creation time,
    the page at [offset] followed by the page at [offset + limit] is the page
    of both at [offset]. *)
Theorem getVehicles_pages (limit more offset : Z) (d : db) :
  0 < limit → 0 < more → 0 ≤ offset →
  ∃ first next both,
    getVehicles limit offset d = (Ok (Instances first), d) ∧
    getVehicles more (offset + limit) d = (Ok (Instances next), d) ∧
    getVehicles (limit + more) offset d = (Ok (Instances both), d) ∧
    (NoDup (sort_key "CreatedAt" <$> rows (Vehicles d)) → first ++ next = both) ∧
    Z.of_nat (length first) ≤ limit ∧
    newest_first (sort_key "CreatedAt") first ∧
    (∀ o, o ∈ first → o ∈ rows (Vehicles d)) ∧
    (Z.of_nat (length (rows (Vehicles d))) ≤ offset → first = []) ∧
    (offset = 0 → Z.of_nat (length (rows (Vehicles d))) ≤ limit →
     first ≡ₚ rows (Vehicles d)).
Proof.
  intros Hl Hm Ho.
  pose proof (order_desc_perm (sort_key "CreatedAt") (rows (Vehicles d))) as Hperm.
  pose proof (order_desc_sorted (sort_key "CreatedAt") (rows (Vehicles d))) as Hsorted.
  set (all := order_desc (sort_key "CreatedAt") (rows (Vehicles d))) in *.
  eexists _, _, _. split; [apply getVehicles_run; lia|].
  split; [apply getVehicles_run; lia|]. split; [apply getVehicles_run; lia|].
  fold all. split; [|split; [|split; [|split; [|split]]]].
  - intros _. rewrite !Z2Nat.inj_add by lia. rewrite <- drop_drop. apply take_take_drop.
  - rewrite length_take. lia.
  - by apply Sorted_take, Sorted_drop.
  - intros o Hin. rewrite <- Hperm.
    eapply elem_of_sublist; [exact Hin|].
    etrans; [apply sublist_take|apply sublist_drop].
  - intros Hbeyond. rewrite drop_ge; [by destruct (Z.to_nat limit)|].
    rewrite (Permutation_length Hperm). lia.
  - intros -> Hall. simpl. rewrite drop_0, take_ge; [done|].
    rewrite (Permutation_length Hperm). lia.
Qed.

End Vehicle_more.

(** Checks of [integer_column] and of [well_keyed] that run. *)
Lemma integer_column_check (k : string) (t : table) :
  forallb (stored_integer k) (rows t) = true → integer_column k t.
Proof.
  intros Hall. apply Forall_forall. intros o Hin%list_elem_of_In.
  rewrite forallb_forall in Hall. by apply Hall.
Qed.

Lemma well_keyed_check (t : table) :
  forallb (λ o, match key_of o with
                | Some n => bool_decide (n < autoinc t)
                | None => false
                end) (rows t) = true →
  bool_decide (NoDup (key_of <$> rows t)) = true →
  well_keyed t.
Proof.
  intros Hkeys Hnodup. split; [|by apply bool_decide_eq_true in Hnodup].
  apply Forall_forall. intros o Hin.
  rewrite forallb_forall in Hkeys. apply list_elem_of_In in Hin.
  specialize (Hkeys o Hin). destruct (key_of o) as [n|]; [|done].
  exists n. split; [done|]. by apply bool_decide_eq_true in Hkeys.
Qed.

Section Vehicle_more_examples.
#[local] Existing Instance Scenario.world.
Import vehicleController.

(** User 1 sends an update with an empty image, then one with an image. *)
Lemma updateVehicle_by_owner_witness :
  updateVehicle 1 {[ "image" := VStr "" ]} (Scenario.user 1) Scenario.garage
    = (Ok (Counts [0]), Scenario.garage) ∧
  (∃ d', updateVehicle 1 {[ "image" := VStr "iVBORw0KGgo=" ]} (Scenario.user 1)
           Scenario.garage
           = (Ok (Counts [1]), d') ∧
         Events d' = Events Scenario.garage).
Proof.
  split.
  - destruct (updateVehicle_by_owner 1 1 {[ "image" := VStr "" ]} (Scenario.user 1)
                Scenario.garage) as [Hkept _]; [vm_compute; reflexivity|reflexivity|].
    destruct Hkept as (n & d' & Hrun & _ & _ & Hnothing & _);
      [reflexivity|intros; reflexivity|].
    destruct Hnothing as [-> ->]; [apply delete_singleton_eq|]. exact Hrun.
  - destruct (updateVehicle_by_owner 1 1 {[ "image" := VStr "iVBORw0KGgo=" ]}
                (Scenario.user 1) Scenario.garage) as [_ Hnew];
      [vm_compute; reflexivity|reflexivity|].
    destruct (Hnew (VStr "vehicle.png")) as (n & d' & Hrun & _ & Hone & Hevents & _);
      [reflexivity|reflexivity|intros; reflexivity|].
    exists d'. rewrite Hone in Hrun by (apply (bool_decide_unpack _); vm_compute; exact I).
    split; [exact Hrun|exact Hevents].
Defined.


(** User 1 deletes the vehicle; it is gone for every later call. *)
Lemma deleteVehicle_by_owner_witness :
  ∃ d', deleteVehicle 1 (Scenario.user 1) Scenario.garage
          = (Ok (Prim (VNum (Int 1))), d') ∧
        getVehicle 1 d' = (Ok (Prim VNull), d') ∧
        deleteVehicle 1 (Scenario.user 1) d' = (Throw TypeError, d').
Proof.
  destruct (deleteVehicle_by_owner 1 1 (Scenario.user 1) Scenario.garage)
    as (n & d' & Hrun & _ & Hone & _ & _ & _ & Hgone & Hlater);
    [vm_compute; reflexivity|reflexivity|].
  exists d'. rewrite Hone in Hrun by (apply (bool_decide_unpack _); vm_compute; exact I).
  split; [exact Hrun|]. split; [exact Hgone|].
  apply (Hlater ∅ (Scenario.user 1)).
Defined.

(** User 2 registers a second vehicle in the garage and reads it back. *)
Lemma createVehicle_then_getVehicle_witness :
  ∃ row d', createVehicle (Scenario.suv 2) (Scenario.user 2) Scenario.garage
              = (Ok (Instance row), d') ∧
            key_of row = Some 2 ∧
            getVehicle 2 Scenario.garage = (Ok (Prim VNull), Scenario.garage) ∧
            ∃ found, getVehicle 2 d' = (Ok (Instance found), d') ∧
                     key_of found = Some 2 ∧
                     found !! "image" = Some (VStr "default.png").
Proof.
  destruct (createVehicle_stores (Scenario.suv 2) 2 (VStr "default.png") Scenario.garage)
    as (row & d' & Hrun & _ & Himage); [reflexivity|reflexivity|by left|].
  destruct (createVehicle_then_getVehicle (Scenario.suv 2) (Scenario.user 2)
              Scenario.garage d' row) as (Hkey & Hfresh & (found & Hread & Hfound & Hsame) & _).
  - apply well_keyed_check; vm_compute; reflexivity.
  - reflexivity.
  - exact Hrun.
  - exists row, d'. split; [exact Hrun|]. split; [exact Hkey|]. split; [exact Hfresh|].
    exists found. split; [exact Hread|]. split; [exact Hfound|].
    rewrite Hsame. exact Himage.
Defined.

(** The six vehicles of user 1. *)
Lemma getVehiclesByUser_all_witness :
  ∃ l, getVehiclesByUser 1 Scenario.six_suvs = (Ok (Instances l), Scenario.six_suvs) ∧
       length l = 6%nat ∧
       sublist l (rows (Vehicles Scenario.six_suvs)).
Proof.
  destruct (getVehiclesByUser_all 1 Scenario.six_suvs) as (l & Hrun & _ & Hsub).
  - apply integer_column_check. vm_compute. reflexivity.
  - exists l. split; [exact Hrun|]. split; [|exact Hsub].
    assert (length <$> listed (getVehiclesByUser 1 Scenario.six_suvs).1 = Some 6%nat)
      as Hsix by (vm_compute; reflexivity).
    rewrite Hrun in Hsix. by injection Hsix.
Defined.

(** The garage stays well keyed through a create, an update and a delete. *)
Lemma vehicle_calls_keep_keys_witness :
  well_keyed (Vehicles (createVehicle (Scenario.suv 2) (Scenario.user 2)
                          Scenario.garage).2) ∧
  well_keyed (Vehicles (updateVehicle 1 {[ "colour" := VStr "red" ]} (Scenario.user 1)
                          Scenario.garage).2) ∧
  well_keyed (Vehicles (deleteVehicle 1 (Scenario.user 1) Scenario.garage).2).
Proof.
  destruct (vehicle_calls_keep_keys Scenario.garage) as (Hcreate & Hupdate & Hdelete).
  - apply well_keyed_check; vm_compute; reflexivity.
  - split; [by apply Hcreate|]. split; [by apply Hupdate|apply Hdelete].
Defined.

(** Two pages of five over twelve vehicles. *)
Lemma getVehicles_pages_witness :
  ∃ first next,
    getVehicles 5 0 Scenario.twelve_suvs = (Ok (Instances first), Scenario.twelve_suvs) ∧
    getVehicles 5 5 Scenario.twelve_suvs = (Ok (Instances next), Scenario.twelve_suvs) ∧
    getVehicles 10 0 Scenario.twelve_suvs
      = (Ok (Instances (first ++ next)), Scenario.twelve_suvs) ∧
    Z.of_nat (length first) ≤ 5.
Proof.
  destruct (getVehicles_pages 5 5 0 Scenario.twelve_suvs)
    as (first & next & both & Hfirst & Hnext & Hboth & Happ & Hlen & _); [lia..|].
  exists first, next. rewrite Happ
    by (apply (bool_decide_unpack _); vm_compute; exact I).
  by repeat split.
Defined.

End Vehicle_more_examples.

Section Upload_examples.
#[local] Existing Instance Scenario.offline.
Import vehicleController.

(** The Blob Store is out of reach: user 1 can neither register a vehicle
    with an image nor put an image on the one in the garage. *)
Lemma failed_upload_writes_nothing_witness :
  let data := <["image" := VStr "iVBORw0KGgo="]> (Scenario.suv 1) in
  createVehicle data (Scenario.user 1) Scenario.garage
    = (Throw UploadError, Scenario.garage) ∧
  updateVehicle 1 data (Scenario.user 1) Scenario.garage
    = (Throw UploadError, Scenario.garage).
Proof.
  intros data.
  destruct (failed_upload_writes_nothing 1 data (Scenario.user 1) Scenario.garage
              UploadError) as (_ & _ & Hcreate & Hupdate); [reflexivity..|].
  split; [apply Hcreate; vm_compute; reflexivity|].
  apply (Hupdate (Scenario.user 1)); vm_compute; reflexivity.
Defined.

End Upload_examples.

(** ** The routing tables *)

Section Tables.
Context `{Services}.

Lemma dispatch_answer (r : route) (rest : list route) (req : request)
    (ps : gmap string string) :
  on r = verb req →
  match_path (pattern r) (path req) ∅ = Some ps →
  ended (run (stack r) (with_params ps req)) →
  dispatch (r :: rest) req = answer (run (stack r) (with_params ps req)).
Proof.
  intros Hverb Hpath Hend. rewrite (dispatch_here r rest req ps Hverb Hpath Hend).
  unfold answer. by destruct (run _ _) as [t [req'| |]].
Qed.

Lemma run_one (h : layer) (req : request) : ended (h req) → run [h] req = h req.
Proof.
  unfold ended. simpl. by destruct (h req) as [t [req'| |]].
Qed.

Lemma run_checked (v : validator) (h : layer) (req : request) :
  (∀ req', ended (h req')) → run [validate v; h] req = h (checked v req).
Proof. intros Hend. apply run_validate, Hend. Qed.

Lemma run_verified (v : validator) (h : layer) (req : request) :
  (∀ req', ended (h req')) →
  run [verifyToken; validate v; h] req =
    match verify (authorization req) with
    | Some uid => h (checked v (with_userId uid req))
    | None => ([], Done Unauthorized)
    end.
Proof.
  intros Hend.
  change (run [verifyToken; validate v; h] req)
    with (match verifyToken req with
          | (t, Next req') => let '(t', r) := run [validate v; h] req' in (t ++ t', r)
          | (t, r) => (t, r)
          end).
  unfold verifyToken. destruct (verify (authorization req)) as [uid|]; [|done].
  rewrite (run_checked v h _ Hend). by destruct (h _) as [t f].
Qed.

Lemma found_layer_ended (c : request → call) (req : request) :
  ended (validated (λ req, invoke (c req) found) req).
Proof.
  apply validated_ended. intros req'. apply invoke_ended. intros data.
  apply found_ended.
Qed.

Lemma settled_layer_ended (c : request → call) (req : request) :
  ended (validated (λ req, invoke (c req) settled) req).
Proof.
  apply validated_ended. intros req'. apply invoke_ended. intros data.
  apply settled_ended.
Qed.

Lemma get_include_ended (req : request) : ended (eventRoutes.get_include req).
Proof.
  apply validated_ended. intros req'. apply invoke_ended. intros data.
  unfold ended. simpl. destruct (truthy_value data); [|done].
  by destruct (eventRoutes.toJSON data).
Qed.

Lemma sent_ended (c : call) (k : value → response) : ended (invoke c (λ data, Done (k data))).
Proof. by apply invoke_ended. Qed.

Ltac other_verb := rewrite dispatch_other_verb by (cbn [on verb]; discriminate).

Ltac other_path :=
  rewrite dispatch_other_path
    by (cbn [pattern path match_path];
        repeat match goal with E : String.eqb _ _ = _ |- _ => rewrite E end;
        repeat match goal with
               | |- context [if String.eqb ?s ?x then _ else _] =>
                   destruct (String.eqb s x)
               end;
        reflexivity).

Ltac this_route :=
  erewrite dispatch_answer;
    [ cbn [stack]
    | reflexivity
    | cbn [pattern path match_path];
      repeat match goal with E : String.eqb _ _ = _ |- _ => rewrite E end;
      reflexivity
    | cbn [stack] ].

Ltac stack_ended :=
  first [ rewrite run_checked | rewrite run_verified | rewrite run_one ];
  first [ apply found_layer_ended | apply settled_layer_ended
        | apply get_include_ended | apply sent_ended
        | intros; first [ apply found_layer_ended | apply settled_layer_ended
                        | apply get_include_ended | apply sent_ended ]
        | idtac ].

(** The routers as tables: which handler answers a request, and on what
    request. *)
Lemma eventRoutes_table (req : request) :
  dispatch eventRoutes.router req =
    match verb req, path req with
    | GET, [] => answer (eventRoutes.get_all (with_params ∅ req))
    | GET, [id] =>
        answer (eventRoutes.get_one
                  (checked idParamValidator (with_params {[ "id" := id ]} req)))
    | GET, [a; b] =>
        if String.eqb "include" b then
          answer (eventRoutes.get_include
                    (checked idParamValidator (with_params {[ "id" := a ]} req)))
        else if String.eqb "vehicle" a then
          answer (eventRoutes.get_by_vehicle
                    (checked idParamValidator (with_params {[ "id" := b ]} req)))
        else if String.eqb "type" a then
          answer (eventRoutes.get_by_type
                    (checked eventTypeParamValidator (with_params {[ "type" := b ]} req)))
        else ([], Unhandled)
    | POST, [] =>
        match verify (authorization req) with
        | Some uid =>
            answer (eventRoutes.post
                      (checked eventValidator (with_userId uid (with_params ∅ req))))
        | None => ([], Replied Unauthorized)
        end
    | PUT, [id] =>
        match verify (authorization req) with
        | Some uid =>
            answer (eventRoutes.put
                      (checked updateEventValidator
                         (with_userId uid (with_params {[ "id" := id ]} req))))
        | None => ([], Replied Unauthorized)
        end
    | DELETE, [id] =>
        match verify (authorization req) with
        | Some uid =>
            answer (eventRoutes.delete
                      (checked idParamValidator
                         (with_userId uid (with_params {[ "id" := id ]} req))))
        | None => ([], Replied Unauthorized)
        end
    | _, _ => ([], Unhandled)
    end.
Proof.
  destruct req as [v p q b a ps u es]. cbn [verb path]. unfold eventRoutes.router.
  destruct v, p as [|x [|y [|z p]]].
  all: try (destruct (String.eqb "include" y) eqn:Einclude;
            [|destruct (String.eqb "vehicle" x) eqn:Evehicle;
              [|destruct (String.eqb "type" x) eqn:Etype]]).
  all: repeat first [other_verb | other_path].
  all: try reflexivity.
  all: this_route.
  all: try (rewrite ?insert_empty; stack_ended).
  all: try (cbn [authorization with_params]; destruct (verify a);
            first [done | apply settled_layer_ended]).
Qed.

Lemma commentRoutes_table (req : request) :
  dispatch commentRoutes.router req =
    match verb req, path req with
    | GET, [] => answer (commentRoutes.get_all (with_params ∅ req))
    | GET, [id] =>
        answer (commentRoutes.get_one
                  (checked idParamValidator (with_params {[ "id" := id ]} req)))
    | GET, [a; b] =>
        if String.eqb "event" a then
          answer (commentRoutes.get_by_event
                    (checked idParamValidator (with_params {[ "id" := b ]} req)))
        else if String.eqb "user" a then
          answer (commentRoutes.get_by_user
                    (checked idParamValidator (with_params {[ "id" := b ]} req)))
        else ([], Unhandled)
    | POST, [] =>
        match verify (authorization req) with
        | Some uid =>
            answer (commentRoutes.post
                      (checked commentValidator (with_userId uid (with_params ∅ req))))
        | None => ([], Replied Unauthorized)
        end
    | PUT, [id] =>
        match verify (authorization req) with
        | Some uid =>
            answer (commentRoutes.put
                      (checked updateCommentValidator
                         (with_userId uid (with_params {[ "id" := id ]} req))))
        | None => ([], Replied Unauthorized)
        end
    | DELETE, [id] =>
        match verify (authorization req) with
        | Some uid =>
            answer (commentRoutes.delete
                      (checked idParamValidator
                         (with_userId uid (with_params {[ "id" := id ]} req))))
        | None => ([], Replied Unauthorized)
        end
    | _, _ => ([], Unhandled)
    end.
Proof.
  destruct req as [v p q b a ps u es]. cbn [verb path]. unfold commentRoutes.router.
  destruct v, p as [|x [|y [|z p]]].
  all: try (destruct (String.eqb "event" x) eqn:Eevent;
            [|destruct (String.eqb "user" x) eqn:Euser]).
  all: repeat first [other_verb | other_path].
  all: try reflexivity.
  all: this_route.
  all: try (rewrite ?insert_empty; stack_ended).
  all: try (cbn [authorization with_params]; destruct (verify a);
            first [done | apply settled_layer_ended]).
Qed.

Lemma imageRoutes_table (req : request) :
  dispatch imageRoutes.router req =
    match verb req, path req with
    | GET, [] => answer (imageRoutes.get_all (with_params ∅ req))
    | GET, [id] =>
        answer (imageRoutes.get_one
                  (checked idParamValidator (with_params {[ "id" := id ]} req)))
    | POST, [] =>
        answer (imageRoutes.post (checked imageValidator (with_params ∅ req)))
    | DELETE, [id] =>
        answer (imageRoutes.delete
                  (checked idParamValidator (with_params {[ "id" := id ]} req)))
    | _, _ => ([], Unhandled)
    end.
Proof.
  rewrite images_by_event_dead.
  destruct req as [v p q b a ps u es]. cbn [verb path].
  unfold imageRoutes.all_images, imageRoutes.image_by_id, imageRoutes.create_image,
    imageRoutes.delete_image.
  destruct v, p as [|x [|y p]].
  all: repeat first [other_verb | other_path].
  all: try reflexivity.
  all: this_route.
  all: try (rewrite ?insert_empty; stack_ended).
  all: reflexivity.
Qed.

(** ** What the routers keep *)

Lemma validated_calls (c : request → call) (k : value → flow) (req : request)
    (c0 : call) :
  c0 ∈ (answer (validated (λ r, invoke (c r) k) req)).1 → c0 = c req.
Proof.
  unfold validated, invoke. destruct (errors req); [|by intros ?%elem_of_nil].
  destruct (controller (c req)) as [data|e]; [destruct (k data)|];
    by intros ->%list_elem_of_singleton.
Qed.

Lemma orderly_found (c : request → call) (req : request) :
  orderly (answer (validated (λ r, invoke (c r) found) req)).
Proof.
  unfold validated, invoke, found, orderly.
  destruct (errors req); [|simpl; by left].
  destruct (controller (c req)) as [data|e] eqn:Hc; [|simpl; by eauto 10].
  destruct (truthy_value data); simpl; eauto 10.
Qed.

Lemma orderly_settled (c : request → call) (req : request) :
  orderly (answer (validated (λ r, invoke (c r) settled) req)).
Proof.
  unfold validated, invoke, orderly.
  destruct (errors req); [|simpl; by left].
  destruct (controller (c req)) as [data|e] eqn:Hc; [|simpl; by eauto 10].
  destruct data as [[| | |[|n]|]| |]; try (simpl; by eauto).
  destruct (decide (n = 404)) as [->|]; [simpl; by eauto|].
  destruct (decide (n = 401)) as [->|]; [simpl; right; by eauto|].
  assert (settled (number n) = Done (Send (envelope (number n)))) as Hs.
  { unfold settled, number. destruct n as [|p|p]; try done.
    repeat (destruct p as [p|p|]; try done). }
  unfold number in Hs. rewrite Hs. simpl. by eauto.
Qed.

Lemma orderly_include (req : request) : orderly (answer (eventRoutes.get_include req)).
Proof.
  unfold eventRoutes.get_include, validated, invoke, orderly.
  destruct (errors req); [|simpl; by left].
  destruct (controller _) as [data|e] eqn:Hc; [|simpl; by eauto 10].
  destruct (truthy_value data); [|simpl; by eauto].
  destruct (eventRoutes.toJSON data); simpl; eauto 10.
Qed.

Lemma orderly_sent (c : call) (f : value → value) :
  orderly (answer (invoke c (λ data, Done (Send (f data))))).
Proof.
  unfold invoke, orderly. destruct (controller c) as [data|e] eqn:Hc; simpl; eauto 10.
Qed.

Ltac orderly_layer :=
  first [ apply orderly_found | apply orderly_settled | apply orderly_include
        | apply (orderly_sent _ envelope) | apply (orderly_sent _ (λ data, data))
        | reflexivity ].

(** X9. On every request each of the three routers is orderly: a
    request left unhandled, refused as unauthorized or answered 422 has
    called no controller; a 401 body comes after exactly one call that
    returned 401; a 404 and every [send] come after exactly one call, which
    returned; an error handed to [next] comes after exactly one call, which
    threw that error or returned a value the handler could not use. *)
Theorem routers_orderly (req : request) :
  orderly (dispatch eventRoutes.router req) ∧
  orderly (dispatch commentRoutes.router req) ∧
  orderly (dispatch imageRoutes.router req).
Proof.
  rewrite eventRoutes_table, commentRoutes_table, imageRoutes_table.
  destruct (verb req), (path req) as [|x [|y [|z p]]]; repeat split;
    repeat match goal with
           | |- context [if String.eqb ?s ?x then _ else _] => destruct (String.eqb s x)
           | |- context [verify ?a] => destruct (verify a)
           end;
    orderly_layer.
Qed.

(** X10. Whenever a router calls a controller that takes a caller
    ([createEvent], [updateEvent], [deleteEvent], and the same for comments),
    the caller it passes is the one [verifyToken] resolved from the
    credential of the request; it is never taken from the body or the path. *)
Theorem caller_is_verified (req : request) (c : call) (uid : prim) :
  caller_of c = Some uid →
  (c ∈ (dispatch eventRoutes.router req).1 ∨
   c ∈ (dispatch commentRoutes.router req).1 ∨
   c ∈ (dispatch imageRoutes.router req).1) →
  verify (authorization req) = Some uid.
Proof.
  rewrite eventRoutes_table, commentRoutes_table, imageRoutes_table.
  intros Hcaller.
  destruct (verb req), (path req) as [|x [|y [|z p]]];
    repeat match goal with
           | |- context [if String.eqb ?s ?x then _ else _] => destruct (String.eqb s x)
           | |- context [verify ?a] => destruct (verify a) as [who|]
           end;
    intros [Hin|[Hin|Hin]];
    try (by apply elem_of_nil in Hin);
    try (apply validated_calls in Hin; subst c; simpl in Hcaller; congruence).
  all: unfold eventRoutes.get_all, commentRoutes.get_all, imageRoutes.get_all, invoke in Hin;
    simpl in Hin; destruct (controller _) in Hin;
    apply list_elem_of_singleton in Hin; by subst c.
Qed.

Lemma rejected_calls (h : layer) (v : validator) (req : request) :
  check v req ≠ [] → (answer (validated h (checked v req))).1 = [].
Proof.
  intros Hfound. unfold validated, checked. cbn [errors with_errors].
  destruct (errors req ++ check v req) eqn:Herrors; [|done].
  by apply app_eq_nil in Herrors as [_ ?].
Qed.

(** X11. If the validators find something wrong with every request,
    the only controller calls the three routers make are [getEvents],
    [getComments] and [getImages]: every other handler looks at the
    validation result before it calls. *)
Theorem validation_comes_first (req : request) (c : call) :
  (∀ v r, check v r ≠ []) →
  (c ∈ (dispatch eventRoutes.router req).1 ∨
   c ∈ (dispatch commentRoutes.router req).1 ∨
   c ∈ (dispatch imageRoutes.router req).1) →
  (∃ limit offset, c = eventController_getEvents limit offset) ∨
  c = commentController_getComments ∨
  c = imageController_getImages.
Proof.
  rewrite eventRoutes_table, commentRoutes_table, imageRoutes_table.
  intros Hstrict.
  destruct (verb req), (path req) as [|x [|y [|z p]]];
    repeat match goal with
           | |- context [if String.eqb ?s ?x then _ else _] => destruct (String.eqb s x)
           | |- context [verify ?a] => destruct (verify a) as [who|]
           end;
    intros [Hin|[Hin|Hin]];
    try (by apply elem_of_nil in Hin);
    try (unfold eventRoutes.get_one, eventRoutes.get_include, eventRoutes.get_by_vehicle,
           eventRoutes.get_by_type, eventRoutes.post, eventRoutes.put, eventRoutes.delete,
           commentRoutes.get_one, commentRoutes.get_by_event, commentRoutes.get_by_user,
           commentRoutes.post, commentRoutes.put, commentRoutes.delete,
           imageRoutes.get_one, imageRoutes.post, imageRoutes.delete in Hin;
         rewrite rejected_calls in Hin by apply Hstrict;
         by apply elem_of_nil in Hin).
  all: unfold eventRoutes.get_all, commentRoutes.get_all, imageRoutes.get_all, invoke in Hin;
    simpl in Hin; destruct (controller _) in Hin;
    apply list_elem_of_singleton in Hin; subst c; eauto.
Qed.

(** X12. A GET of a path of two segments that ends in [include] is
    answered by the handler of [/:id/include] with the first segment as the
    id, also when that segment is [vehicle] or [type]: the routes
    [/vehicle/:id] and [/type/:type] are registered after it.  The only
    controller such a request calls is [getEventIncludeAll]. *)
Theorem include_route_first (req : request) (a : string) :
  verb req = GET → path req = [a; "include"] →
  dispatch eventRoutes.router req =
    answer (eventRoutes.get_include
              (checked idParamValidator (with_params {[ "id" := a ]} req))) ∧
  ∀ c, c ∈ (dispatch eventRoutes.router req).1 →
       c = eventController_getEventIncludeAll (VStr a).
Proof.
  intros Hverb Hpath. rewrite eventRoutes_table, Hverb, Hpath. split; [done|].
  intros c Hin. cbn [String.eqb Ascii.eqb Bool.eqb] in Hin.
  apply validated_calls in Hin. subst c. unfold param. cbn [params checked with_errors with_params].
  by rewrite lookup_singleton_eq.
Qed.

(** X13. For a validated DELETE [/:id] with a credential that
    verifies: the event router answers 404 exactly when [deleteEvent]
    returned the number 404, the image router exactly when [deleteImage]
    returned a falsy value.  A count of 0 is sent as a success by the event
    router and answered 404 by the image router. *)
Theorem delete_not_found (req : request) (id : string) (uid : prim)
    (removed_event removed_image : value) :
  verb req = DELETE → path req = [id] → errors req = [] →
  verify (authorization req) = Some uid →
  check idParamValidator (with_userId uid (with_params {[ "id" := id ]} req)) = [] →
  check idParamValidator (with_params {[ "id" := id ]} req) = [] →
  controller (eventController_deleteEvent (VStr id) uid) = Ok removed_event →
  controller (imageController_deleteImage (VStr id)) = Ok removed_image →
  ((dispatch eventRoutes.router req).2 = Replied (SendStatus 404)
     ↔ removed_event = number 404) ∧
  ((dispatch imageRoutes.router req).2 = Replied (SendStatus 404)
     ↔ truthy_value removed_image = false) ∧
  (removed_event = number 0 →
   (dispatch eventRoutes.router req).2 = Replied (Send (envelope (number 0)))) ∧
  (removed_image = number 0 →
   (dispatch imageRoutes.router req).2 = Replied (SendStatus 404)).
Proof.
  intros Hverb Hpath Herrors Hverify Hcheck Hcheck' Hevent Himage.
  rewrite eventRoutes_table, imageRoutes_table, Hverb, Hpath, Hverify.
  unfold eventRoutes.delete, imageRoutes.delete, validated, invoke, checked, param.
  cbn [errors with_errors with_userId with_params params userId].
  rewrite Herrors, Hcheck, Hcheck', lookup_singleton_eq. cbn [app from_option].
  rewrite Hevent, Himage. cbn [answer snd]. repeat split.
  - destruct removed_event as [[| | |[|n]|]| |]; try done.
    destruct (decide (n = 404)) as [->|]; [done|].
    destruct (decide (n = 401)) as [->|]; [done|].
    unfold settled. destruct n as [|p|p]; try done.
    repeat (destruct p as [p|p|]; try done).
  - by intros ->.
  - unfold found. by destruct (truthy_value removed_image).
  - unfold found. by intros ->.
  - by intros ->.
  - by intros ->.
Qed.

End Tables.

(** ** The projection of an event with its relations *)

Lemma field_without (k k' : string) (o : list (string * value)) :
  k ≠ k' →
  field (List.filter (λ kv, negb (String.eqb kv.1 k')) o) k = field o k.
Proof.
  intros Hne. induction o as [|[k0 v] o IH]; [done|]. cbn [List.filter fst field].
  destruct (String.eqb k0 k') eqn:Hk0; cbn [negb field].
  - apply String.eqb_eq in Hk0 as ->.
    destruct (String.eqb k' k) eqn:Hk; [apply String.eqb_eq in Hk; congruence|done].
  - by rewrite IH.
Qed.

Lemma field_set_User_exact (f : value → value) (o : list (string * value)) :
  f (VPrim VUndef) = VPrim VUndef →
  field (eventRoutes.set_User f o) "User" = f (field o "User").
Proof.
  intros Hf. induction o as [|[k v] o IH]; [done|].
  unfold eventRoutes.set_User in *. cbn [fmap list_fmap field fst snd].
  by destruct (String.eqb k "User") eqn:Hk; cbn [field fst snd]; rewrite Hk.
Qed.

Lemma field_set_User_other (f : value → value) (o : list (string * value)) (k : string) :
  k ≠ "User" → field (eventRoutes.set_User f o) k = field o k.
Proof.
  intros Hne. induction o as [|[k0 v] o IH]; [done|].
  unfold eventRoutes.set_User in *. cbn [fmap list_fmap field fst snd].
  destruct (String.eqb k0 "User") eqn:Hk; cbn [field fst snd]; [|by rewrite IH].
  apply String.eqb_eq in Hk as ->.
  destruct (String.eqb "User" k) eqn:Hk; [apply String.eqb_eq in Hk; congruence|done].
Qed.

Lemma keys_set_User (f : value → value) (o : list (string * value)) :
  (eventRoutes.set_User f o).*1 = o.*1.
Proof.
  induction o as [|[k v] o IH]; [done|].
  unfold eventRoutes.set_User in *. cbn [fmap list_fmap fst snd]. f_equal; [|done].
  by destruct (String.eqb k "User").
Qed.

(** X14. What [GET /:id/include] removes from the event it sends:
    the keys of the event and every field other than [User] are as loaded;
    a [User] that is an object loses [password] and [email] and keeps its
    other fields; a [User] that is not an object is left as it is. *)
Theorem filtered_only_strips (o : list (string * value)) :
  (eventRoutes.filtered o).*1 = o.*1 ∧
  (∀ k, k ≠ "User" → field (eventRoutes.filtered o) k = field o k) ∧
  (∀ u, field o "User" = VObj u →
        ∃ u', field (eventRoutes.filtered o) "User" = VObj u' ∧
              field u' "password" = VPrim VUndef ∧
              field u' "email" = VPrim VUndef ∧
              ∀ k, k ≠ "password" → k ≠ "email" → field u' k = field u k) ∧
  (∀ u, (∀ u', u ≠ VObj u') → field o "User" = u →
        field (eventRoutes.filtered o) "User" = u).
Proof.
  unfold eventRoutes.filtered.
  set (strip := λ u, delete_property "email" (delete_property "password" u)).
  destruct (truthy_value (field o "User")) eqn:Htruthy.
  - split; [apply keys_set_User|]. split; [intros k Hk; by apply field_set_User_other|].
    split.
    + intros u Hu. rewrite (field_set_User_exact strip) by done. rewrite Hu.
      eexists. split; [reflexivity|]. split; [|split].
      * rewrite field_without by done. clear. induction u as [|[k v] u IH]; [done|].
        cbn [List.filter fst]. destruct (String.eqb k "password") eqn:Hk; [done|].
        cbn [negb field]. by rewrite Hk.
      * clear. induction (List.filter _ u) as [|[k v] l IH]; [done|].
        cbn [List.filter fst]. destruct (String.eqb k "email") eqn:Hk; [done|].
        cbn [negb field]. by rewrite Hk.
      * intros k Hp He. by rewrite !field_without.
    + intros u Hother Hu. rewrite (field_set_User_exact strip) by done. rewrite Hu.
      destruct u as [p|l|u']; [done..|]. by destruct (Hother u').
  - split; [done|]. split; [done|]. split.
    + intros u Hu. by rewrite Hu in Htruthy.
    + by intros u _ Hu.
Qed.

(** ** The page of a list *)

Lemma parseInt_written_negative (n : Z) :
  0 ≤ n → ∃ s, numeric s = true ∧ parseInt (Some s) = Int (- n).
Proof.
  intros Hn. destruct (digits_written n Hn) as (c & s & [x Hc] & Hs & Hv).
  exists (String "-" (String c s)). split.
  - unfold numeric. cbn [split_sign snd]. by rewrite Hs.
  - unfold parseInt, parseInt10, ToString.
    change (default "undefined" (Some (String "-" (String c s))))
      with (String "-" (String c s)).
    assert (skip_whitespace (String "-" (String c s)) = String "-" (String c s)) as ->.
    { cbn [skip_whitespace]. change (is_whitespace "-") with false. cbn beta iota.
      change (is_whitespace2 "-" c) with false. cbn beta iota.
      by destruct s. }
    cbn [split_sign]. rewrite Hv. f_equal; lia.
Qed.

Section Page.
Context `{Services}.

(** X15. [GET /] on the event router makes one call, [getEvents] with
    the limit and the offset read from the query.  The limit is never 0, and
    neither is bounded from below: for every bound there is a numeric query
    value that gives a limit, and an offset, below it, so negative ones reach
    the controller. *)
Theorem event_list_page (req : request) :
  verb req = GET → path req = [] →
  (dispatch eventRoutes.router req).1
    = [eventController_getEvents (eventRoutes.page_of (query req)).1
                                 (eventRoutes.page_of (query req)).2] ∧
  (eventRoutes.page_of (query req)).1 ≠ 0 ∧
  (∀ bound, ∃ s, numeric s = true ∧
     (eventRoutes.page_of (<["limit" := s]> (query req))).1 < bound ∧
     (eventRoutes.page_of (<["offset" := s]> (query req))).2 < bound).
Proof.
  intros Hverb Hpath. rewrite eventRoutes_table, Hverb, Hpath. split; [|split].
  - unfold eventRoutes.get_all, invoke. cbn [query with_params eventRoutes.page_of].
    by destruct (controller _).
  - unfold eventRoutes.page_of, or_default. cbn [fst].
    destruct (parseInt (query req !! "limit")) as [|k]; [done|].
    destruct (k =? 0) eqn:Hk; [done|]. by apply Z.eqb_neq in Hk.
  - intros bound.
    destruct (parseInt_written_negative (Z.max 1 (1 - bound))) as (s & Hs & Hv); [lia|].
    exists s. split; [done|]. unfold eventRoutes.page_of. cbn [fst snd].
    rewrite !lookup_insert_eq, Hv. unfold or_default.
    destruct (- Z.max 1 (1 - bound) =? 0) eqn:Hz; [apply Z.eqb_eq in Hz; lia|]. lia.
Qed.

End Page.

(** ** index.js *)

Section App_facts.
Context `{Services} `{app.Mounted}.
Import app.

Lemma serve_use_other (prefix : list string) (router : list route)
    (rest : list entry) (req : request) :
  below prefix (path req) = None →
  serve (Use prefix router :: rest) req = serve rest req.
Proof. intros Hnone. cbn [serve]. by rewrite Hnone. Qed.

Lemma serve_use_here (prefix p : list string) (router : list route)
    (rest : list entry) (req : request) :
  below prefix (path req) = Some p →
  serve rest req = ([], Unhandled) →
  serve (Use prefix router :: rest) req = dispatch router (with_path p req).
Proof.
  intros Hsome Hrest. cbn [serve]. rewrite Hsome, Hrest.
  destruct (dispatch router (with_path p req)) as [t [r|e|]]; [done..|].
  by rewrite app_nil_r.
Qed.

Lemma serve_get_other (r : route) (req : request) :
  match_path (pattern r) (path req) ∅ = None →
  serve [Get r] req = ([], Unhandled).
Proof.
  intros Hnone. cbn [serve dispatch]. rewrite Hnone.
  by destruct (bool_decide (on r = verb req)).
Qed.

(** X16. A request for a path under [/api/events], [/api/comments] or
    [/api/images] is answered by the dispatch of that router on the rest of
    the path, whatever the routers mounted before it are; [GET /] is answered
    by the greeting. *)
Theorem mounted_router_alone (req : request) (rest : list string) :
  (path req = "api" :: "events" :: rest →
   serve entries req = dispatch eventRoutes.router (with_path rest req)) ∧
  (path req = "api" :: "comments" :: rest →
   serve entries req = dispatch commentRoutes.router (with_path rest req)) ∧
  (path req = "api" :: "images" :: rest →
   serve entries req = dispatch imageRoutes.router (with_path rest req)) ∧
  (path req = [] → verb req = GET →
   serve entries req = ([], Replied (Send (text "hello world")))).
Proof.
  unfold entries.
  assert (∀ p, below ["api-docs"] (path req) = None →
               serve ((if development then [Use ["api-docs"] apiDocs] else []) ++ p) req
               = serve p req) as Hdocs.
  { intros p Hnone. destruct development; [|done]. by apply serve_use_other. }
  repeat split.
  - intros Hpath. rewrite Hdocs by (rewrite Hpath; reflexivity).
    do 2 (rewrite serve_use_other by (rewrite Hpath; reflexivity)).
    apply serve_use_here; [by rewrite Hpath|].
    do 3 (rewrite serve_use_other by (rewrite Hpath; reflexivity)).
    apply serve_get_other. by rewrite Hpath.
  - intros Hpath. rewrite Hdocs by (rewrite Hpath; reflexivity).
    do 3 (rewrite serve_use_other by (rewrite Hpath; reflexivity)).
    apply serve_use_here; [by rewrite Hpath|].
    do 2 (rewrite serve_use_other by (rewrite Hpath; reflexivity)).
    apply serve_get_other. by rewrite Hpath.
  - intros Hpath. rewrite Hdocs by (rewrite Hpath; reflexivity).
    do 4 (rewrite serve_use_other by (rewrite Hpath; reflexivity)).
    apply serve_use_here; [by rewrite Hpath|].
    do 1 (rewrite serve_use_other by (rewrite Hpath; reflexivity)).
    apply serve_get_other. by rewrite Hpath.
  - intros Hpath Hverb. rewrite Hdocs by (rewrite Hpath; reflexivity).
    do 6 (rewrite serve_use_other by (rewrite Hpath; reflexivity)).
    cbn [serve dispatch on pattern stack]. rewrite Hpath, Hverb. reflexivity.
Qed.

End App_facts.

Section Router_more_examples.
#[local] Existing Instance Scenario.services.

(** The delete of event 1 is called for the user of the credential. *)
Lemma caller_is_verified_witness :
  let req := incoming DELETE ["1"] ∅ (VPrim VUndef) (Some "token-of-user-1") in
  (dispatch eventRoutes.router req).1
    = [eventController_deleteEvent (VStr "1") (Scenario.user 1)] ∧
  verify (authorization req) = Some (Scenario.user 1).
Proof.
  intros req.
  assert ((dispatch eventRoutes.router req).1
          = [eventController_deleteEvent (VStr "1") (Scenario.user 1)]) as Htrace
    by (vm_compute; reflexivity).
  split; [exact Htrace|].
  apply (caller_is_verified req (eventController_deleteEvent (VStr "1") (Scenario.user 1)));
    [reflexivity|].
  left. rewrite Htrace. by apply list_elem_of_singleton.
Defined.

(** [GET /vehicle/include] asks for the event named vehicle. *)
Lemma include_route_first_witness :
  let req := incoming GET ["vehicle"; "include"] ∅ (VPrim VUndef) None in
  (dispatch eventRoutes.router req).1
    = [eventController_getEventIncludeAll (VStr "vehicle")].
Proof.
  intros req.
  destruct (include_route_first req "vehicle") as [Hroute _]; [reflexivity..|].
  rewrite Hroute. vm_compute. reflexivity.
Defined.

(** [GET /?limit=0&offset=abc] asks for the first ten events. *)
Lemma event_list_page_witness :
  let req := incoming GET [] {[ "limit" := "0"; "offset" := "abc" ]} (VPrim VUndef) None in
  (dispatch eventRoutes.router req).1 = [eventController_getEvents 10 0].
Proof.
  intros req.
  destruct (event_list_page req) as (Htrace & _ & _); [reflexivity..|].
  rewrite Htrace. vm_compute. reflexivity.
Defined.

End Router_more_examples.

Section Delete_examples.
#[local] Existing Instance Scenario.emptied.

(** A delete that removed nothing: the event router reports success with
    the count 0, the image router reports 404. *)
Lemma delete_not_found_witness :
  let req := incoming DELETE ["9"] ∅ (VPrim VUndef) (Some "token-of-user-1") in
  (dispatch eventRoutes.router req).2 = Replied (Send (envelope (number 0))) ∧
  (dispatch imageRoutes.router req).2 = Replied (SendStatus 404).
Proof.
  intros req.
  destruct (delete_not_found req "9" (Scenario.user 1) (number 0) (number 0))
    as (_ & _ & Hevent & Himage); [reflexivity..|].
  split; [by apply Hevent|by apply Himage].
Defined.

End Delete_examples.

Section Validation_examples.
#[local] Existing Instance Scenario.strict.

(** Every validator objects, and the list of events is still asked for. *)
Lemma validation_comes_first_witness :
  let req := incoming GET [] ∅ (VPrim VUndef) None in
  let c := eventController_getEvents 10 0 in
  (dispatch eventRoutes.router req).1 = [c] ∧
  (dispatch eventRoutes.router (app.with_path ["1"] req)).1 = [] ∧
  ((∃ limit offset, c = eventController_getEvents limit offset) ∨
   c = commentController_getComments ∨
   c = imageController_getImages).
Proof.
  intros req c.
  assert ((dispatch eventRoutes.router req).1 = [c]) as Htrace by (vm_compute; reflexivity).
  split; [exact Htrace|]. split; [vm_compute; reflexivity|].
  apply (validation_comes_first req c); [intros v r; discriminate|].
  left. rewrite Htrace. by apply list_elem_of_singleton.
Defined.

End Validation_examples.

Section App_examples.
#[local] Existing Instance Scenario.services.
#[local] Existing Instance Scenario.mounted.

(** [GET /api/images/7] is answered by the image router as [GET /7], and
    [GET /] by the greeting. *)
Lemma mounted_router_alone_witness :
  let req := incoming GET ["api"; "images"; "7"] ∅ (VPrim VUndef) None in
  app.serve app.entries req = dispatch imageRoutes.router (app.with_path ["7"] req) ∧
  app.serve app.entries (app.with_path [] req)
    = ([], Replied (Send (text "hello world"))).
Proof.
  intros req.
  destruct (mounted_router_alone req ["7"]) as (_ & _ & Himages & _).
  destruct (mounted_router_alone (app.with_path [] req) []) as (_ & _ & _ & Hroot).
  split; [by apply Himages|by apply Hroot].
Defined.

End App_examples.
